(** * Face-candidate detection, filtering and classification orchestration

    A shallow embedding of [server/image_utils.py] (class [EmotionPredictor])
    and the properties of its candidate filter, its non-maximum suppression
    and its orchestrator [predict_emotion].

    Conventions of the embedding.

    - Python integers are [Z].  The integers of a numpy array have 64
      bits: [non_max_suppression] is given twice, in exact integers and
      rationals ([overlap_ratio], [non_max_suppression]) and with the
      wrap-around of 64 bits and the rounding of binary64
      ([overlap_ratio_f64], [non_max_suppression_f64]); the two agree on
      the integers as long as nothing wraps, which is so for every
      rectangle inside a frame.
    - Python floats that the code only compares (the aspect ratio, the
      variance, the classifier's scores) are exact rationals [Q]: every
      finite float is a rational, and the rounded comparison and the
      exact one agree unless the exact value lies within the rounding
      error of the bound it is compared with.  numpy's [inf] and [nan]
      are kept as values of their own where the code can produce them.
    - An exception is a value [Raise msg] of the type [result]; a
      [try ... except Exception] is a [match] on it.
    - OpenCV, the cascade detector and the Keras model are external: they
      are variables of the section that embeds the class.
    - Wall-clock timing fields of the response are left out. *)

From Stdlib Require Import String DecimalString.
From Stdlib Require Import ZArith QArith List Bool Lia Permutation Sorted
  Arith.PeanoNat.
From Stdlib Require SpecFloat.
From Equations Require Import Equations.
Import ListNotations.

Local Open Scope Z_scope.

(** ** Exceptions *)

Inductive result (A : Type) : Type :=
| Ok (a : A)
| Raise (msg : string).

Arguments Ok {A} a.
Arguments Raise {A} msg.

Definition bind {A B : Type} (r : result A) (k : A -> result B) : result B :=
  match r with
  | Ok a => k a
  | Raise e => Raise e
  end.

Notation "x <- r ;; k" := (bind r (fun x => k))
  (at level 61, r at next level, right associativity).

(** ** Frames and rectangles *)

(** A frame is a numpy array of gray values (two dimensions) or of BGR
    triples (three dimensions), row by row.  [shape1] of a frame without
    rows is taken to be 0. *)
Inductive Image : Type :=
| Gray (rows : list (list Z))
| BGR (rows : list (list (Z * Z * Z))).

Definition ndim (image : Image) : nat :=
  match image with
  | Gray _ => 2%nat
  | BGR _ => 3%nat
  end.

Definition shape0 (image : Image) : Z :=
  match image with
  | Gray rows => Z.of_nat (length rows)
  | BGR rows => Z.of_nat (length rows)
  end.

Definition shape1 (image : Image) : Z :=
  match image with
  | Gray rows => Z.of_nat (length (hd [] rows))
  | BGR rows => Z.of_nat (length (hd [] rows))
  end.

(** A candidate is the tuple [(x, y, w, h)]. *)
Definition Rect : Type := (Z * Z * Z * Z)%type.

Definition rect_w (f : Rect) : Z := let '(_, _, w, _) := f in w.
Definition rect_h (f : Rect) : Z := let '(_, _, _, h) := f in h.
Definition rect_area (f : Rect) : Z := rect_w f * rect_h f.

(** Python's [l[start:stop]]: a negative index counts from the end, and
    both ends are clamped to the list. *)
Definition py_index (len i : Z) : Z :=
  let j := if i <? 0 then i + len else i in
  Z.max 0 (Z.min len j).

Definition py_slice {A : Type} (start stop : Z) (l : list A) : list A :=
  let len := Z.of_nat (length l) in
  let a := py_index len start in
  let b := py_index len stop in
  firstn (Z.to_nat (b - a)) (skipn (Z.to_nat a) l).

(** [image[y:y+h, x:x+w]] *)
Definition crop (image : Image) (x y w h : Z) : Image :=
  match image with
  | Gray rows => Gray (map (py_slice x (x + w)) (py_slice y (y + h) rows))
  | BGR rows => BGR (map (py_slice x (x + w)) (py_slice y (y + h) rows))
  end.

(** The elements of the array, flattened: what [.size] counts and [np.var]
    ranges over. *)
Definition values (image : Image) : list Z :=
  match image with
  | Gray rows => concat rows
  | BGR rows =>
      concat (map (fun row => concat (map (fun '(b, g, r) => [b; g; r]) row)) rows)
  end.

Definition size (image : Image) : Z := Z.of_nat (length (values image)).

(** ** [np.var] *)

Definition Qsum (l : list Q) : Q := fold_right Qplus 0%Q l.

Definition mean (l : list Z) : Q :=
  (Qsum (map inject_Z l) / inject_Z (Z.of_nat (length l)))%Q.

(** The mean of the squared deviations from the mean, exactly.
    [np.var] computes it in binary64: the result is 0 on a uniform
    region in both, and the comparisons with 100 agree unless the exact
    variance is within the rounding error of 100. *)
Definition np_var (l : list Z) : Q :=
  let m := mean l in
  (Qsum (map (fun v => (inject_Z v - m) * (inject_Z v - m)) l)
     / inject_Z (Z.of_nat (length l)))%Q.

(** ** Configuration ([config.py]) *)

Record Config : Type := {
  FACE_DETECTION_MIN_SIZE : Z * Z;
  CONFIDENCE_THRESHOLD : Q
}.

(** The values taken when the environment sets nothing. *)
Definition default_config : Config :=
  {| FACE_DETECTION_MIN_SIZE := (30, 30);
     CONFIDENCE_THRESHOLD := (7 # 10)%Q |}.

(** ** The response *)

Record EmotionResult : Type := {
  face_id : nat;
  bounding_box : Rect;
  emotion : string;
  confidence : Q;
  all_predictions : list (string * Q)
}.

Record Response : Type := {
  success : bool;
  message : string;
  faces_detected : nat;
  emotions : list EmotionResult
}.

(** [self.emotion_labels]; a missing key is a [KeyError]. *)
Definition emotion_labels (k : nat) : result string :=
  match k with
  | 0%nat => Ok "happy"%string
  | 1%nat => Ok "sad"%string
  | 2%nat => Ok "neutral"%string
  | _ => Raise "KeyError"%string
  end.

(** [np.argmax] and [np.max] of a vector; both raise on an empty one.
    [np.argmax] returns the first index of the maximum. *)
Fixpoint argmax_from (i best_i : nat) (best : Q) (l : list Q) : nat :=
  match l with
  | [] => best_i
  | v :: rest =>
      if Qlt_le_dec best v then argmax_from (S i) i v rest
      else argmax_from (S i) best_i best rest
  end.

Definition np_argmax (l : list Q) : result nat :=
  match l with
  | [] => Raise "attempt to get argmax of an empty sequence"%string
  | v :: rest => Ok (argmax_from 1 0 v rest)
  end.

Fixpoint max_from (best : Q) (l : list Q) : Q :=
  match l with
  | [] => best
  | v :: rest => if Qlt_le_dec best v then max_from v rest else max_from best rest
  end.

Definition np_max (l : list Q) : result Q :=
  match l with
  | [] => Raise "zero-size array to reduction operation maximum which has no identity"%string
  | v :: rest => Ok (max_from v rest)
  end.

(** [str(n)] for a length. *)
Definition str_of_nat (n : nat) : string := NilZero.string_of_uint (Nat.to_uint n).

(** ** numpy's true division and comparison *)

Inductive npfloat : Type :=
| Finite (q : Q)
| PosInf
| NegInf
| NaN.

(** [a / b] on integer arrays: a float, with [inf] and [nan] (and a
    warning, no exception) when [b] is 0. *)
Definition np_true_divide (a b : Z) : npfloat :=
  if b =? 0 then
    if a =? 0 then NaN else if 0 <? a then PosInf else NegInf
  else Finite (inject_Z a / inject_Z b)%Q.

(** [r <= threshold]; false on [nan]. *)
Definition np_le (r : npfloat) (threshold : Q) : bool :=
  match r with
  | Finite q => Qle_bool q threshold
  | NegInf => true
  | PosInf => false
  | NaN => false
  end.

(** ** The external collaborators *)

(** The library functions the class calls.  [np_argsort] returns the
    indices that sort its argument in ascending order; numpy's default
    kind is not stable, so nothing is fixed here about ties. *)
Class Libs : Type := {
  cv2_cvtColor_BGR2GRAY : Image -> result Image;
  cv2_GaussianBlur : Image -> result Image;
  cv2_equalizeHist : Image -> result Image;
  cv2_resize : Image -> result Image;
  np_argsort : list Z -> list nat
}.

(** What is known of [np.argsort]: its result is a permutation of the
    indices of its argument. *)
Class LibsSpec (L : Libs) : Prop := {
  np_argsort_perm :
    forall l : list Z, Permutation (np_argsort l) (seq 0 (length l))
}.

(** The classifier's input: rows of pixels of channel values, scaled to
    [0, 1] (the batch dimension, always 1, is left out). *)
Definition Tensor : Type := list (list (list Q)).

(** The object state the methods read: the loaded model and cascade. *)
Record EmotionPredictor : Type := {
  model_predict : Tensor -> result (list Q);
  face_cascade_detectMultiScale : Image -> result (list Rect);
  config : Config
}.

Section Methods.

Context {L : Libs}.

(** *** [reduce_background_noise] *)

Definition reduce_background_noise (self : EmotionPredictor) (image : Image) : Image :=
  match
    (gray <- (if (ndim image =? 3)%nat then cv2_cvtColor_BGR2GRAY image else Ok image) ;;
     processed <- cv2_GaussianBlur gray ;;
     processed <- cv2_equalizeHist processed ;;
     Ok processed)
  with
  | Ok processed => processed
  | Raise _ => image
  end.

(** *** [detect_faces_multi_scale] *)

Definition is_duplicate (x y w h : Z) (filtered_faces : list Rect) : bool :=
  existsb (fun '(fx, fy, fw, fh) =>
             (Z.abs (x - fx) <? w / 2) && (Z.abs (y - fy) <? h / 2))
          filtered_faces.

Fixpoint size_and_duplicate_loop (faces filtered_faces : list Rect) : list Rect :=
  match faces with
  | [] => filtered_faces
  | (x, y, w, h) :: rest =>
      if (30 <=? w) && (w <=? 300) && (30 <=? h) && (h <=? 300) then
        if negb (is_duplicate x y w h filtered_faces) then
          size_and_duplicate_loop rest (filtered_faces ++ [(x, y, w, h)])
        else size_and_duplicate_loop rest filtered_faces
      else size_and_duplicate_loop rest filtered_faces
  end.

Definition detect_faces_multi_scale (self : EmotionPredictor) (image : Image) : list Rect :=
  let processed_image := reduce_background_noise self image in
  match face_cascade_detectMultiScale self processed_image with
  | Ok faces =>
      if (0 <? length faces)%nat then
        firstn 3 (size_and_duplicate_loop faces [])
      else []
  | Raise _ => []
  end.

(** *** [non_max_suppression] *)

(** [faces[i]]; the indices used below come from [np_argsort] and are in
    range. *)
Definition face_at (faces : list Rect) (i : nat) : Rect := nth i faces (0, 0, 0, 0).

(** The overlap ratio of the loop body for one pair, in exact integers
    and rationals: [x1, y1] and [x2, y2] are the corners, the
    intersection is clipped at 0.  [overlap_ratio_f64] below is the same
    computation with the 64-bit wrap-around and the binary64 quotient. *)
Definition overlap_ratio (a b : Rect) : npfloat :=
  let '(ax, ay, aw, ah) := a in
  let '(bx, by_, bw, bh) := b in
  let xx1 := Z.max ax bx in
  let yy1 := Z.max ay by_ in
  let xx2 := Z.min (ax + aw) (bx + bw) in
  let yy2 := Z.min (ay + ah) (by_ + bh) in
  let w := Z.max 0 (xx2 - xx1) in
  let h := Z.max 0 (yy2 - yy1) in
  let intersection := w * h in
  let union := aw * ah + bw * bh - intersection in
  np_true_divide intersection union.

(** The [while] loop: [indices] shrinks at each turn.  The [break] taken
    when one index is left is the turn on an empty [other_indices]: the
    mask keeps nothing and the loop ends. *)
Equations? nms_loop (faces : list Rect) (overlap_threshold : Q) (indices : list nat)
  : list nat by wf (length indices) lt :=
nms_loop faces overlap_threshold [] := [];
nms_loop faces overlap_threshold (current :: other_indices) :=
  current ::
  nms_loop faces overlap_threshold
    (filter (fun o => np_le (overlap_ratio (face_at faces current) (face_at faces o))
                            overlap_threshold)
            other_indices).
Proof.
  match goal with
  | |- context [filter ?f ?l] => pose proof (filter_length_le f l)
  end.
  simpl in *; lia.
Qed.

Definition non_max_suppression (faces : list Rect) (overlap_threshold : Q)
  : list Rect :=
  match faces with
  | [] => []
  | _ =>
      let areas := map rect_area faces in
      let indices := rev (np_argsort areas) in
      let keep := nms_loop faces overlap_threshold indices in
      map (face_at faces) keep
  end.

(** The default value of the parameter, [overlap_threshold=0.3]. *)
Definition default_overlap_threshold : Q := (3 # 10)%Q.

(** *** [filter_false_positives] *)

(** One turn of the [for] loop: [Ok true] when the candidate is appended,
    [Ok false] on [continue].  [w / h] on Python integers raises
    [ZeroDivisionError] when [h] is 0.  Slicing an array and [np.var] do
    not raise, so the inner [except] has nothing to catch. *)
Definition passes_checks (self : EmotionPredictor) (image : Image) (f : Rect)
  : result bool :=
  let '(x, y, w, h) := f in
  aspect_ratio <- (if h =? 0 then Raise "division by zero"%string
                   else Ok (inject_Z w / inject_Z h)%Q) ;;
  if negb (Qle_bool (6 # 10) aspect_ratio && Qle_bool aspect_ratio (14 # 10)) then
    Ok false
  else
    let min_size := fst (FACE_DETECTION_MIN_SIZE (config self)) in
    if (w <? min_size) || (h <? min_size) then Ok false
    else
      let face_roi := crop image x y w h in
      if (0 <? size face_roi)
         && (if Qlt_le_dec (np_var (values face_roi)) 100 then true else false)
      then Ok false
      else if (x <? 0) || (y <? 0) || (shape1 image <? x + w) || (shape0 image <? y + h)
      then Ok false
      else Ok true.

Fixpoint checks_loop (self : EmotionPredictor) (image : Image)
  (faces filtered_faces : list Rect) : result (list Rect) :=
  match faces with
  | [] => Ok filtered_faces
  | f :: rest =>
      keep <- passes_checks self image f ;;
      checks_loop self image rest (if keep then filtered_faces ++ [f] else filtered_faces)
  end.

(** The body of the [try]. *)
Definition filter_false_positives_body (self : EmotionPredictor)
  (faces : list Rect) (image : Image) : result (list Rect) :=
  match faces with
  | [] => Ok []
  | _ =>
      filtered_faces <- checks_loop self image faces [] ;;
      Ok (if (1 <? length filtered_faces)%nat
          then non_max_suppression filtered_faces default_overlap_threshold
          else filtered_faces)
  end.

Definition filter_false_positives (self : EmotionPredictor)
  (faces : list Rect) (image : Image) : list Rect :=
  match filter_false_positives_body self faces image with
  | Ok filtered_faces => filtered_faces
  | Raise _ => faces
  end.

End Methods.

Section Orchestration.

Context {L : Libs}.

(** *** [preprocess_face_for_model] *)

(** [astype('float32') / 255.0] followed by [expand_dims]: a gray pixel
    becomes a pixel of one channel. *)
Definition normalize (face_resized : Image) : Tensor :=
  let scale (v : Z) : Q := (inject_Z v / 255)%Q in
  match face_resized with
  | Gray rows => map (map (fun v => [scale v])) rows
  | BGR rows => map (map (fun '(b, g, r) => [scale b; scale g; scale r])) rows
  end.

(** [None] is the value returned from the [except] branch. *)
Definition preprocess_face_for_model (face_image : Image) : option Tensor :=
  match
    (face_gray <- (if (ndim face_image =? 3)%nat
                   then cv2_cvtColor_BGR2GRAY face_image else Ok face_image) ;;
     face_resized <- cv2_resize face_gray ;;
     Ok (normalize face_resized))
  with
  | Ok face_input => Some face_input
  | Raise _ => None
  end.

(** *** [predict_emotion] *)

(** The dictionary comprehension of ['all_predictions'], from index [j]
    on: a class without a label is a [KeyError]. *)
Fixpoint all_predictions_from (j : nat) (prediction : list Q)
  : result (list (string * Q)) :=
  match prediction with
  | [] => Ok []
  | p :: rest =>
      label <- emotion_labels j ;;
      others <- all_predictions_from (S j) rest ;;
      Ok ((label, p) :: others)
  end.

(** What one face adds to [results]: [Ok None] when preprocessing gave
    [None], an exception when the model or a lookup raises. *)
Definition predict_face (self : EmotionPredictor) (image : Image) (i : nat) (f : Rect)
  : result (option EmotionResult) :=
  let '(x, y, w, h) := f in
  let face_roi := crop image x y w h in
  match preprocess_face_for_model face_roi with
  | Some processed_face =>
      prediction <- model_predict self processed_face ;;
      predicted_class <- np_argmax prediction ;;
      confidence <- np_max prediction ;;
      label <- emotion_labels predicted_class ;;
      all_p <- all_predictions_from 0 prediction ;;
      Ok (Some {| face_id := i + 1;
                  bounding_box := (x, y, w, h);
                  emotion := label;
                  confidence := confidence;
                  all_predictions := all_p |})
  | None => Ok None
  end.

(** The [for i, (x, y, w, h) in enumerate(faces)] loop, from index [i]. *)
Fixpoint predict_loop (self : EmotionPredictor) (image : Image) (i : nat)
  (faces : list Rect) (results : list EmotionResult) : result (list EmotionResult) :=
  match faces with
  | [] => Ok results
  | f :: rest =>
      r <- predict_face self image i f ;;
      predict_loop self image (S i) rest
        (match r with
         | Some emotion_result => results ++ [emotion_result]
         | None => results
         end)
  end.

Definition no_face_response : Response :=
  {| success := false;
     message := "No face detected";
     faces_detected := 0;
     emotions := [] |}.

Definition error_response (e : string) : Response :=
  {| success := false;
     message := "Error during prediction: " ++ e;
     faces_detected := 0;
     emotions := [] |}.

(** The body of the [try]. *)
Definition predict_emotion_body (self : EmotionPredictor) (image : Image)
  : result Response :=
  let faces := detect_faces_multi_scale self image in
  if (length faces =? 0)%nat then Ok no_face_response
  else
    results <- predict_loop self image 0 faces [] ;;
    Ok {| success := true;
          faces_detected := length faces;
          emotions := results;
          message := "Successfully detected " ++ str_of_nat (length faces)
                     ++ " face(s)" |}.

Definition predict_emotion (self : EmotionPredictor) (image : Image) : Response :=
  match predict_emotion_body self image with
  | Ok response => response
  | Raise e => error_response e
  end.

End Orchestration.

(** ** Stub collaborators, for running the pipeline on concrete inputs *)

Module Stubs.

(** A stable insertion sort of the indices by value: what [np.argsort]
    does on short arrays. *)
Fixpoint insert_index (a : list Z) (i : nat) (sorted : list nat) : list nat :=
  match sorted with
  | [] => [i]
  | j :: rest =>
      if nth i a 0 <? nth j a 0 then i :: j :: rest
      else j :: insert_index a i rest
  end.

Definition argsort (a : list Z) : list nat :=
  fold_left (fun sorted i => insert_index a i sorted) (seq 0 (length a)) [].

(** A resize that fails on an empty crop, as [cv2.resize] does, and
    otherwise returns the 1x1 frame of the first value. *)
Definition resize (image : Image) : result Image :=
  match values image with
  | [] => Raise "resize: empty image"%string
  | v :: _ => Ok (Gray [[v]])
  end.

(** Luminance as the blue channel: enough for a stub. *)
Definition cvtColor (image : Image) : result Image :=
  match image with
  | Gray rows => Ok (Gray rows)
  | BGR rows => Ok (Gray (map (map (fun '(b, _, _) => b)) rows))
  end.

#[export] Instance libs : Libs := {
  cv2_cvtColor_BGR2GRAY := cvtColor;
  cv2_GaussianBlur := fun image => Ok image;
  cv2_equalizeHist := fun image => Ok image;
  cv2_resize := resize;
  np_argsort := argsort
}.

(** A predictor whose cascade returns [faces] whatever the frame and
    whose model returns [scores] whatever the tensor. *)
Definition predictor (faces : list Rect) (scores : result (list Q)) : EmotionPredictor :=
  {| model_predict := fun _ => scores;
     face_cascade_detectMultiScale := fun _ => Ok faces;
     config := default_config |}.

(** A gray frame of [h] rows and [w] columns filled with [v]. *)
Definition uniform_frame (h w : nat) (v : Z) : Image := Gray (repeat (repeat v w) h).

(** Three scores, the largest for the second class, "sad". *)
Definition scores : list Q := [(1 # 4)%Q; (1 # 2)%Q; (1 # 4)%Q].

(** A 60 by 60 frame of value 128, and a 60 by 320 one. *)
Definition frame : Image := uniform_frame 60 60 128.
Definition wide_frame : Image := uniform_frame 60 320 128.

(** A 60 by 120 frame, dark on its left half and bright on its right. *)
Definition split_frame : Image := Gray (repeat (repeat 50 60 ++ repeat 200 60) 60).

(** A model that scores dark crops and is unavailable for bright ones. *)
Definition picky_model (t : Tensor) : result (list Q) :=
  match t with
  | [[[v]]] => if Qle_bool v (1 # 2) then Ok scores
               else Raise "model unavailable"%string
  | _ => Raise "unexpected input shape"%string
  end.

Definition picky_predictor (faces : list Rect) : EmotionPredictor :=
  {| model_predict := picky_model;
     face_cascade_detectMultiScale := fun _ => Ok faces;
     config := default_config |}.

(** Four raw candidates far apart, the last one the largest. *)
Definition four_faces : list Rect :=
  [(0, 0, 30, 30); (100, 0, 30, 30); (200, 0, 30, 30); (0, 100, 200, 200)].

(** The configuration under [MIN_SIZE_WIDTH=2], and a predictor that
    only carries it: its cascade and model are not used by the filter. *)
Definition small_config : Config :=
  {| FACE_DETECTION_MIN_SIZE := (2, 30);
     CONFIDENCE_THRESHOLD := (7 # 10)%Q |}.

Definition small_predictor : EmotionPredictor :=
  {| model_predict := fun _ => Ok scores;
     face_cascade_detectMultiScale := fun _ => Ok [];
     config := small_config |}.

(** A 4 by 4 frame with columns alternately black and white, the
    candidate that covers it (its region has variance 16256.25), and a
    4 by 4 frame of value 128. *)
Definition textured_frame : Image := Gray (repeat [0; 255; 0; 255] 4).
Definition small_frame : Image := uniform_frame 4 4 128.
Definition small_face : Rect := (0, 0, 4, 4).

(** An elongated candidate and a square one. *)
Definition wide_face : Rect := (0, 0, 300, 50).
Definition square_face : Rect := (10, 10, 40, 40).

(** A candidate inside the 60 by 60 frame and one outside of it, whose
    crop is empty. *)
Definition inside_face : Rect := (0, 0, 40, 40).
Definition outside_face : Rect := (60, 60, 40, 40).

(** Three candidates, the first two overlapping by more than 0.3, the
    last two by less. *)
Definition overlapping_faces : list Rect :=
  [(0, 0, 40, 40); (2, 2, 44, 44); (35, 35, 40, 40)].

End Stubs.

(** ** The web layer ([app.py]) and its client ([test_api.py]) *)

(** A decoded JSON body.  An object is a dictionary: its keys are
    distinct, and a lookup returns the value of the key. *)
#[local] Unset Elimination Schemes.
Inductive Json : Type :=
| JNull
| JBool (b : bool)
| JNum (q : Q)
| JStr (s : string)
| JArr (items : list Json)
| JObj (fields : list (string * Json)).
#[local] Set Elimination Schemes.

(** Python's truth value: [not data] is its negation. *)
Definition truthy (data : Json) : bool :=
  match data with
  | JNull => false
  | JBool b => b
  | JNum q => negb (Qeq_bool q 0)
  | JStr s => negb (String.eqb s "")
  | JArr items => match items with [] => false | _ => true end
  | JObj fields => match fields with [] => false | _ => true end
  end.

(** [needle in s] on strings. *)
Fixpoint contains (needle s : string) : bool :=
  match s with
  | EmptyString => String.prefix needle EmptyString
  | String c rest => String.prefix needle s || contains needle rest
  end.

(** [key in data]: a key of an object, an element of an array, a
    substring of a string; a number or a boolean is not iterable.  The
    text of an exception raised by the interpreter stands as the name of
    its class. *)
Definition py_in (key : string) (data : Json) : result bool :=
  match data with
  | JObj fields => Ok (existsb (fun kv => String.eqb (fst kv) key) fields)
  | JArr items =>
      Ok (existsb (fun item => match item with
                               | JStr s => String.eqb s key
                               | _ => false
                               end) items)
  | JStr s => Ok (contains key s)
  | JNull | JBool _ | JNum _ => Raise "TypeError"%string
  end.

(** [data[key]] with a string key: only an object can be indexed so. *)
Definition py_getitem (data : Json) (key : string) : result Json :=
  match data with
  | JObj fields =>
      match find (fun kv => String.eqb (fst kv) key) fields with
      | Some kv => Ok (snd kv)
      | None => Raise "KeyError"%string
      end
  | _ => Raise "TypeError"%string
  end.

(** [s.split(sep)] for a separator of one character: never empty. *)
Fixpoint py_split (sep : Ascii.ascii) (s : string) : list string :=
  match s with
  | EmptyString => [EmptyString]
  | String c rest =>
      if Ascii.eqb c sep then EmptyString :: py_split sep rest
      else match py_split sep rest with
           | part :: parts => String c part :: parts
           | [] => [String c EmptyString]
           end
  end.

Definition comma : Ascii.ascii := Ascii.Ascii false false true true false true false false.

(** The text handed to [base64.b64decode]: what follows the first comma
    of a data URL, up to the next comma; any other text as it is. *)
Definition image_text (image_data : Json) : result string :=
  match image_data with
  | JStr s =>
      if String.prefix "data:image" s then
        match nth_error (py_split comma s) 1 with
        | Some part => Ok part
        | None => Raise "IndexError"%string
        end
      else Ok s
  | _ => Raise "AttributeError"%string
  end.

(** What the routes leave to libraries: [decode_image] is
    [base64.b64decode], [Image.open] and [np.array] in a row and gives an
    array of gray values or of colour triples. *)
Class WebLibs : Type := {
  decode_image : string -> result Image;
  cv2_cvtColor_RGB2BGR : Image -> result Image
}.

(** The body of a reply: the [{'error': ...}] object or the results of
    [predict_emotion] (the timing keys added to it are left out). *)
Inductive Body : Type :=
| ErrorBody (error : string)
| ResultBody (results : Response).

Section Routes.

Context {L : Libs} {W : WebLibs}.

(** The [try] of the route [/predict]: the reply and its status. *)
Definition predict_route_body (predictor : EmotionPredictor) (get_json : result Json)
  : result (Body * nat) :=
  data <- get_json ;;
  if negb (truthy data) then Ok (ErrorBody "No image data provided", 400%nat)
  else
    has_image <- py_in "image" data ;;
    if negb has_image then Ok (ErrorBody "No image data provided", 400%nat)
    else
      image_data <- py_getitem data "image" ;;
      image_data <- image_text image_data ;;
      image_array <- decode_image image_data ;;
      image_array <- (if (ndim image_array =? 3)%nat
                      then cv2_cvtColor_RGB2BGR image_array else Ok image_array) ;;
      Ok (ResultBody (predict_emotion predictor image_array), 200%nat).

(** The route [/predict]; [predictor] is the module's global, [None] when
    its initialisation failed. *)
Definition predict_route (predictor : option EmotionPredictor) (get_json : result Json)
  : Body * nat :=
  match predictor with
  | None => (ErrorBody "Predictor not initialized", 500%nat)
  | Some p =>
      match predict_route_body p get_json with
      | Ok reply => reply
      | Raise e => (ErrorBody e, 500%nat)
      end
  end.

End Routes.

(** The payload of [EmotionAPIClient.predict_from_file] for the base64
    text of a file. *)
Definition client_payload (image_b64 : string) : Json :=
  JObj [("image"%string, JStr ("data:image/jpeg;base64," ++ image_b64))].

(** ** What is further known of [np.argsort] *)

(** The indices come in ascending order of the values. *)
Class LibsSorted (L : Libs) : Prop := {
  np_argsort_sorted :
    forall l : list Z,
      StronglySorted (fun i j => nth i l 0 <= nth j l 0) (np_argsort l)
}.

(** ** The arithmetic of [non_max_suppression] as numpy does it *)

(** [np.array(faces)] is an array of 64-bit integers: its sums,
    differences and products wrap around.  The quotient
    [intersection / union] converts both integers to binary64 and
    divides there, and the comparison with the threshold is the one of
    binary64.  The definitions of this part follow lines 211-250 with
    that arithmetic; [overlap_ratio] and [non_max_suppression] above are
    the same computation in exact integers and rationals, which it
    equals as long as nothing wraps and nothing is rounded. *)

Definition wrap64 (z : Z) : Z := (z + 2 ^ 63) mod 2 ^ 64 - 2 ^ 63.

Definition float64 : Type := SpecFloat.spec_float.

(** The conversion of a 64-bit integer, rounded to the nearest. *)
Definition f64_of_int (z : Z) : float64 := SpecFloat.binary_normalize 53 1024 z 0 false.

Definition f64_div (a b : float64) : float64 := SpecFloat.SFdiv 53 1024 a b.

(** [a <= b]; false when either is [nan]. *)
Definition f64_le (a b : float64) : bool := SpecFloat.SFleb a b.

(** The literal [0.3]. *)
Definition f64_0_3 : float64 := f64_div (f64_of_int 3) (f64_of_int 10).

(** [areas = faces_array[:, 2] * faces_array[:, 3]] *)
Definition area_int64 (f : Rect) : Z := wrap64 (rect_w f * rect_h f).

(** [intersection] and [union] of the loop body for one pair. *)
Definition overlap_counts_int64 (a b : Rect) : Z * Z :=
  let '(ax, ay, aw, ah) := a in
  let '(bx, by_, bw, bh) := b in
  let xx1 := Z.max ax bx in
  let yy1 := Z.max ay by_ in
  let xx2 := Z.min (wrap64 (ax + aw)) (wrap64 (bx + bw)) in
  let yy2 := Z.min (wrap64 (ay + ah)) (wrap64 (by_ + bh)) in
  let w := Z.max 0 (wrap64 (xx2 - xx1)) in
  let h := Z.max 0 (wrap64 (yy2 - yy1)) in
  let intersection := wrap64 (w * h) in
  let union :=
    wrap64 (wrap64 (wrap64 (aw * ah) + wrap64 (bw * bh)) - intersection) in
  (intersection, union).

(** [overlap_ratio = intersection / union] *)
Definition overlap_ratio_f64 (a b : Rect) : float64 :=
  let '(intersection, union) := overlap_counts_int64 a b in
  f64_div (f64_of_int intersection) (f64_of_int union).

(** The same two numbers without wrap-around: the area common to the
    two rectangles and the area they cover together. *)
Definition overlap_counts (a b : Rect) : Z * Z :=
  let '(ax, ay, aw, ah) := a in
  let '(bx, by_, bw, bh) := b in
  let w := Z.max 0 (Z.min (ax + aw) (bx + bw) - Z.max ax bx) in
  let h := Z.max 0 (Z.min (ay + ah) (by_ + bh) - Z.max ay by_) in
  (w * h, aw * ah + bw * bh - w * h).

(** The rectangles of an array of 64-bit integers. *)
Definition int64_rect (f : Rect) : Prop :=
  let '(x, y, w, h) := f in
  (- 2 ^ 63 <= x < 2 ^ 63) /\ (- 2 ^ 63 <= y < 2 ^ 63)
  /\ (- 2 ^ 63 <= w < 2 ^ 63) /\ (- 2 ^ 63 <= h < 2 ^ 63).

(** A rectangle of non-negative corner and size whose right and bottom
    edges are below 2^31: on such rectangles nothing wraps. *)
Definition int64_safe (f : Rect) : Prop :=
  let '(x, y, w, h) := f in
  0 <= x /\ 0 <= y /\ 0 <= w /\ 0 <= h /\ x + w < 2 ^ 31 /\ y + h < 2 ^ 31.

Section Numpy.

Context {L : Libs}.

(** The [while] loop, with the mask computed in binary64. *)
Equations? nms_loop_f64 (faces : list Rect) (overlap_threshold : float64)
  (indices : list nat) : list nat by wf (length indices) lt :=
nms_loop_f64 faces overlap_threshold [] := [];
nms_loop_f64 faces overlap_threshold (current :: other_indices) :=
  current ::
  nms_loop_f64 faces overlap_threshold
    (filter (fun o => f64_le (overlap_ratio_f64 (face_at faces current) (face_at faces o))
                             overlap_threshold)
            other_indices).
Proof.
  match goal with
  | |- context [filter ?f ?l] => pose proof (filter_length_le f l)
  end.
  simpl in *; lia.
Qed.

(** [non_max_suppression], the areas sorted as the 64-bit products. *)
Definition non_max_suppression_f64 (faces : list Rect) (overlap_threshold : float64)
  : list Rect :=
  match faces with
  | [] => []
  | _ =>
      let areas := map area_int64 faces in
      let indices := rev (np_argsort areas) in
      let keep := nms_loop_f64 faces overlap_threshold indices in
      map (face_at faces) keep
  end.

End Numpy.

(** ** Further predicates and sample data *)

(** The proximity test of [detect_faces_multi_scale], of a candidate
    against one kept before it. *)
Definition near (kept candidate : Rect) : bool :=
  let '(fx, fy, _, _) := kept in
  let '(x, y, w, h) := candidate in
  (Z.abs (x - fx) <? w / 2) && (Z.abs (y - fy) <? h / 2).

(** The frame contains the rectangle. *)
Definition inside_frame (image : Image) (f : Rect) : Prop :=
  let '(x, y, w, h) := f in
  0 <= x /\ 0 <= y /\ x + w <= shape1 image /\ y + h <= shape0 image.

(** The labels of the classes, in the order of their indices. *)
Definition label_names : list string := ["happy"; "sad"; "neutral"]%string.

Module Samples.

(** A decoder that knows one text, that of a 60 by 60 gray frame. *)
Definition decode (s : string) : result Image :=
  if String.eqb s "AAAA" then Ok Stubs.frame
  else Raise "cannot identify image file"%string.

#[export] Instance web_libs : WebLibs := {
  decode_image := decode;
  cv2_cvtColor_RGB2BGR := fun image => Ok image
}.

(** A model of four classes. *)
Definition four_scores : list Q := [(1 # 4)%Q; (1 # 4)%Q; (1 # 4)%Q; (1 # 4)%Q].

(** A cascade that fails. *)
Definition broken_cascade_predictor : EmotionPredictor :=
  {| model_predict := fun _ => Ok Stubs.scores;
     face_cascade_detectMultiScale := fun _ => Raise "cascade failure"%string;
     config := default_config |}.

(** Two candidates that the proximity test tells apart and one it does
    not. *)
Definition crowded_faces : list Rect :=
  [(0, 0, 40, 40); (5, 5, 40, 40); (100, 100, 40, 40)].

(** Two rectangles with the same corner, one twice as high as the other,
    whose areas are 2^63 and 2^62. *)
Definition huge_faces : list Rect :=
  [(0, 0, 2 ^ 32, 2 ^ 31); (0, 0, 2 ^ 32, 2 ^ 30)].

(** A 4 by 8 frame with columns alternately black and white and three
    candidates in it, the first two overlapping by 0.6. *)
Definition striped_frame : Image := Gray (repeat [0; 255; 0; 255; 0; 255; 0; 255] 4).
Definition striped_faces : list Rect := [(0, 0, 4, 4); (1, 0, 4, 4); (4, 0, 4, 4)].

End Samples.

(** ** Predicates used in the statements *)

(** [l1] is [l2] with some elements left out, the order kept. *)
Inductive Subseq {A : Type} : list A -> list A -> Prop :=
| Subseq_nil : Subseq [] []
| Subseq_skip (x : A) (l1 l2 : list A) : Subseq l1 l2 -> Subseq l1 (x :: l2)
| Subseq_take (x : A) (l1 l2 : list A) : Subseq l1 l2 -> Subseq (x :: l1) (x :: l2).

(** The size gate of [detect_faces_multi_scale]. *)
Definition in_size_range (f : Rect) : Prop :=
  30 <= rect_w f <= 300 /\ 30 <= rect_h f <= 300.

(** The region of [f] in [image] has pixels and they all have one value. *)
Definition region_uniform (image : Image) (f : Rect) : Prop :=
  let '(x, y, w, h) := f in
  let vals := values (crop image x y w h) in
  vals <> [] /\ exists v : Z, Forall (fun p => p = v) vals.

(** The test of the suppression mask, on two rectangles. *)
Definition within_threshold (overlap_threshold : Q) (a b : Rect) : Prop :=
  np_le (overlap_ratio a b) overlap_threshold = true.

(** ** General lemmas *)

Section SubseqFacts.

Context {A : Type}.

Lemma Subseq_refl (l : list A) : Subseq l l.
Proof. induction l; constructor; assumption. Qed.

Lemma Subseq_nil_l (l : list A) : Subseq [] l.
Proof. induction l; constructor; assumption. Qed.

Lemma Subseq_length (l1 l2 : list A) :
  Subseq l1 l2 -> (length l1 <= length l2)%nat.
Proof. induction 1; simpl; lia. Qed.

Lemma Subseq_In (l1 l2 : list A) (a : A) :
  Subseq l1 l2 -> In a l1 -> In a l2.
Proof.
  induction 1 as [| x l1 l2 _ IH | x l1 l2 _ IH]; simpl; intros Hin.
  - assumption.
  - right; auto.
  - destruct Hin as [-> | Hin]; [left; reflexivity | right; auto].
Qed.

Lemma Subseq_full (l1 l2 : list A) :
  Subseq l1 l2 -> length l1 = length l2 -> l1 = l2.
Proof.
  induction 1 as [| x l1 l2 Hs IH | x l1 l2 Hs IH]; simpl; intros Hlen.
  - reflexivity.
  - apply Subseq_length in Hs. lia.
  - f_equal. apply IH. lia.
Qed.

Lemma Subseq_snoc (l1 l2 : list A) (a : A) :
  Subseq l1 l2 -> Subseq (l1 ++ [a]) (l2 ++ [a]).
Proof.
  induction 1; simpl.
  - apply Subseq_take, Subseq_nil.
  - apply Subseq_skip; assumption.
  - apply Subseq_take; assumption.
Qed.

Lemma Subseq_snoc_skip (l1 l2 : list A) (a : A) :
  Subseq l1 l2 -> Subseq l1 (l2 ++ [a]).
Proof.
  induction 1; simpl.
  - apply Subseq_skip, Subseq_nil.
  - apply Subseq_skip; assumption.
  - apply Subseq_take; assumption.
Qed.

Lemma Subseq_Forall (P : A -> Prop) (l1 l2 : list A) :
  Subseq l1 l2 -> Forall P l2 -> Forall P l1.
Proof.
  intros Hs Hall. rewrite Forall_forall in *.
  intros a Ha. apply Hall. eapply Subseq_In; eassumption.
Qed.

Lemma Subseq_StronglySorted (R : A -> A -> Prop) (l1 l2 : list A) :
  Subseq l1 l2 -> StronglySorted R l2 -> StronglySorted R l1.
Proof.
  induction 1 as [| x l1 l2 Hs IH | x l1 l2 Hs IH]; intros Hsorted.
  - constructor.
  - inversion Hsorted; subst. auto.
  - inversion Hsorted; subst. constructor; [auto |].
    eapply Subseq_Forall; eassumption.
Qed.

End SubseqFacts.

Lemma seq_StronglySorted (a n : nat) : StronglySorted lt (seq a n).
Proof.
  revert a. induction n as [| n IH]; intros a; simpl; constructor.
  - apply IH.
  - apply Forall_forall. intros k Hk. apply in_seq in Hk. lia.
Qed.

Lemma StronglySorted_lt_NoDup (l : list nat) : StronglySorted lt l -> NoDup l.
Proof.
  induction 1 as [| a l _ IH Hall]; constructor; [| assumption].
  intros Hin. rewrite Forall_forall in Hall. specialize (Hall a Hin). lia.
Qed.

(** ** The detection stage *)

Section Detection.

Context {L : Libs}.

Lemma size_gate_spec (w h : Z) :
  (30 <=? w) && (w <=? 300) && (30 <=? h) && (h <=? 300) = true <->
  (30 <= w <= 300 /\ 30 <= h <= 300).
Proof. rewrite !andb_true_iff, !Z.leb_le. lia. Qed.

(** The loop only appends, keeps the order of [faces], and appends only
    candidates inside the size gate. *)
Lemma size_and_duplicate_loop_spec (faces filtered_faces : list Rect) :
  exists tail,
    size_and_duplicate_loop faces filtered_faces = filtered_faces ++ tail
    /\ Subseq tail faces
    /\ Forall in_size_range tail.
Proof.
  revert filtered_faces.
  induction faces as [| [[[x y] w] h] rest IH]; intros acc; simpl.
  - exists []. rewrite app_nil_r. repeat split; constructor.
  - destruct ((30 <=? w) && (w <=? 300) && (30 <=? h) && (h <=? 300)) eqn:Hsize.
    + destruct (negb (is_duplicate x y w h acc)).
      * destruct (IH (acc ++ [(x, y, w, h)])) as (tail & Heq & Hsub & Hall).
        exists ((x, y, w, h) :: tail). rewrite Heq, <- app_assoc. simpl.
        repeat split.
        -- apply Subseq_take; assumption.
        -- constructor; [| assumption].
           apply size_gate_spec in Hsize. exact Hsize.
      * destruct (IH acc) as (tail & Heq & Hsub & Hall).
        exists tail. repeat split; [assumption | apply Subseq_skip; assumption | assumption].
    + destruct (IH acc) as (tail & Heq & Hsub & Hall).
      exists tail. repeat split; [assumption | apply Subseq_skip; assumption | assumption].
Qed.

Lemma survivors_Subseq (faces : list Rect) :
  Subseq (size_and_duplicate_loop faces []) faces.
Proof.
  destruct (size_and_duplicate_loop_spec faces []) as (tail & Heq & Hsub & _).
  rewrite Heq. exact Hsub.
Qed.

Lemma survivors_in_size_range (faces : list Rect) :
  Forall in_size_range (size_and_duplicate_loop faces []).
Proof.
  destruct (size_and_duplicate_loop_spec faces []) as (tail & Heq & _ & Hall).
  rewrite Heq. exact Hall.
Qed.

(** A first raw candidate inside the size gate survives the stage: there
    is nothing yet it could duplicate, and the cap keeps the head. *)
Lemma detect_keeps_first (self : EmotionPredictor) (image : Image)
  (f : Rect) (rest : list Rect) :
  face_cascade_detectMultiScale self (reduce_background_noise self image) = Ok (f :: rest) ->
  in_size_range f ->
  exists tail, detect_faces_multi_scale self image = f :: tail.
Proof.
  intros Hgen Hsize. unfold detect_faces_multi_scale. rewrite Hgen. simpl.
  destruct f as [[[x y] w] h].
  unfold in_size_range in Hsize. simpl in Hsize.
  apply size_gate_spec in Hsize. rewrite Hsize. simpl.
  destruct (size_and_duplicate_loop_spec rest [(x, y, w, h)]) as (tail & Heq & _).
  rewrite Heq. simpl. eexists. reflexivity.
Qed.

Lemma detect_empty_generator (self : EmotionPredictor) (image : Image) :
  face_cascade_detectMultiScale self (reduce_background_noise self image) = Ok [] ->
  detect_faces_multi_scale self image = [].
Proof. intros Hgen. unfold detect_faces_multi_scale. rewrite Hgen. reflexivity. Qed.

(** C2, as amended.  The filtered candidate list has at most 3 candidates
    for every frame; it is the first 3 (in the generator's order) of the
    raw candidates that pass the size gate and the duplicate test, so when
    more than 3 pass, the 3 kept are the 3 found first, whatever their
    areas. *)
Theorem detect_faces_cap (self : EmotionPredictor) (image : Image) :
  (length (detect_faces_multi_scale self image) <= 3)%nat
  /\ forall faces,
       face_cascade_detectMultiScale self (reduce_background_noise self image) = Ok faces ->
       let survivors := size_and_duplicate_loop faces [] in
       detect_faces_multi_scale self image = firstn 3 survivors
       /\ Subseq survivors faces
       /\ Forall in_size_range survivors
       /\ ((3 < length survivors)%nat ->
           length (detect_faces_multi_scale self image) = 3%nat).
Proof.
  split.
  - unfold detect_faces_multi_scale.
    destruct (face_cascade_detectMultiScale self (reduce_background_noise self image))
      as [faces | e]; [| simpl; lia].
    destruct (0 <? length faces)%nat; [| simpl; lia].
    rewrite length_firstn. lia.
  - intros faces Hgen survivors.
    assert (Hdet : detect_faces_multi_scale self image = firstn 3 survivors).
    { unfold detect_faces_multi_scale. rewrite Hgen.
      destruct faces as [| f rest]; reflexivity. }
    repeat split.
    + exact Hdet.
    + apply survivors_Subseq.
    + apply survivors_in_size_range.
    + intros Hmore. rewrite Hdet, length_firstn. lia.
Qed.

End Detection.

(** ** The orchestrator *)

Section Orchestrator.

Context {L : Libs}.

Lemma argmax_from_bound (l : list Q) (i best_i : nat) (best : Q) :
  (best_i < i)%nat -> (argmax_from i best_i best l < i + length l)%nat.
Proof.
  revert i best_i best.
  induction l as [| v rest IH]; intros i best_i best Hlt; simpl.
  - lia.
  - destruct (Qlt_le_dec best v).
    + specialize (IH (S i) i v). lia.
    + specialize (IH (S i) best_i best). lia.
Qed.

Lemma emotion_labels_ok (k : nat) :
  (k < 3)%nat -> exists label, emotion_labels k = Ok label.
Proof.
  intros Hk.
  destruct k as [| [| [| k]]]; simpl; try (eexists; reflexivity). lia.
Qed.

Lemma all_predictions_from_ok (prediction : list Q) (j : nat) :
  (j + length prediction <= 3)%nat ->
  exists all_p, all_predictions_from j prediction = Ok all_p.
Proof.
  revert j. induction prediction as [| p rest IH]; intros j Hlen; simpl.
  - eexists; reflexivity.
  - simpl in Hlen.
    destruct (emotion_labels_ok j) as [label ->]; [lia |].
    destruct (IH (S j)) as [others ->]; [lia |].
    simpl. eexists; reflexivity.
Qed.

(** A face that is preprocessed and scored with one to three scores
    gives a prediction numbered by its position. *)
Lemma predict_face_ok (self : EmotionPredictor) (image : Image) (i : nat)
  (x y w h : Z) (processed_face : Tensor) (prediction : list Q) :
  preprocess_face_for_model (crop image x y w h) = Some processed_face ->
  model_predict self processed_face = Ok prediction ->
  prediction <> [] ->
  (length prediction <= 3)%nat ->
  exists r, predict_face self image i (x, y, w, h) = Ok (Some r)
            /\ face_id r = (i + 1)%nat.
Proof.
  intros Hpre Hmodel Hne Hlen.
  unfold predict_face. rewrite Hpre, Hmodel. simpl.
  destruct prediction as [| v rest]; [congruence |]. simpl.
  assert (Hk : (argmax_from 1 0 v rest < 3)%nat).
  { pose proof (argmax_from_bound rest 1 0 v). simpl in Hlen. lia. }
  destruct (emotion_labels_ok _ Hk) as [label ->]. simpl.
  destruct (all_predictions_from_ok rest 1) as [others Hothers];
    [simpl in Hlen; lia |].
  rewrite Hothers. simpl. eexists. split; reflexivity.
Qed.

Lemma predict_face_skipped (self : EmotionPredictor) (image : Image) (i : nat)
  (x y w h : Z) :
  preprocess_face_for_model (crop image x y w h) = None ->
  predict_face self image i (x, y, w, h) = Ok None.
Proof. intros Hpre. unfold predict_face. rewrite Hpre. reflexivity. Qed.

Lemma predict_face_id (self : EmotionPredictor) (image : Image) (i : nat)
  (f : Rect) (r : EmotionResult) :
  predict_face self image i f = Ok (Some r) -> face_id r = S i.
Proof.
  destruct f as [[[x y] w] h]. unfold predict_face.
  destruct (preprocess_face_for_model (crop image x y w h)); [| discriminate].
  destruct (model_predict self t) as [prediction |]; [| discriminate]. simpl.
  destruct (np_argmax prediction); [| discriminate]. simpl.
  destruct (np_max prediction); [| discriminate]. simpl.
  destruct (emotion_labels a); [| discriminate]. simpl.
  destruct (all_predictions_from 0 prediction); [| discriminate]. simpl.
  intros [= <-]. simpl. lia.
Qed.

(** The identifiers the loop adds are positions of [faces], in order. *)
Lemma predict_loop_spec (self : EmotionPredictor) (image : Image)
  (faces : list Rect) (i : nat) (results out : list EmotionResult) :
  predict_loop self image i faces results = Ok out ->
  exists added,
    out = results ++ added
    /\ Subseq (map face_id added) (seq (S i) (length faces)).
Proof.
  revert i results.
  induction faces as [| f rest IH]; intros i results; simpl.
  - intros [= <-]. exists []. rewrite app_nil_r. split; constructor.
  - destruct (predict_face self image i f) as [[r |] |] eqn:Hface; simpl;
      [| | discriminate].
    + intros Hloop. destruct (IH _ _ Hloop) as (added & -> & Hsub).
      exists (r :: added). rewrite <- app_assoc. split; [reflexivity |].
      simpl. rewrite (predict_face_id _ _ _ _ _ Hface).
      apply Subseq_take. exact Hsub.
    + intros Hloop. destruct (IH _ _ Hloop) as (added & -> & Hsub).
      exists added. split; [reflexivity |]. apply Subseq_skip. exact Hsub.
Qed.

(** A raising face raises the loop, whatever was collected before it. *)
Lemma predict_loop_raise (self : EmotionPredictor) (image : Image) (e : string)
  (faces : list Rect) (i : nat) (results : list EmotionResult) :
  (forall t, model_predict self t = Raise e) ->
  (exists f, In f faces
             /\ preprocess_face_for_model
                  (let '(x, y, w, h) := f in crop image x y w h) <> None) ->
  predict_loop self image i faces results = Raise e.
Proof.
  intros Hmodel. revert i results.
  induction faces as [| g rest IH]; intros i results (f & Hin & Hpre).
  - destruct Hin.
  - simpl. destruct g as [[[x y] w] h]. unfold predict_face.
    destruct (preprocess_face_for_model (crop image x y w h)) as [t |] eqn:Hg.
    + rewrite Hmodel. reflexivity.
    + simpl. apply IH. exists f. split; [| exact Hpre].
      destruct Hin as [<- | Hin]; [| exact Hin].
      simpl in Hpre. congruence.
Qed.

(** The three ways [predict_emotion] returns. *)
Lemma predict_emotion_cases (self : EmotionPredictor) (image : Image) :
  let faces := detect_faces_multi_scale self image in
  (faces = [] /\ predict_emotion_body self image = Ok no_face_response)
  \/ (exists e, faces <> []
                /\ predict_loop self image 0 faces [] = Raise e
                /\ predict_emotion_body self image = Raise e)
  \/ (exists results,
        faces <> []
        /\ predict_loop self image 0 faces [] = Ok results
        /\ predict_emotion_body self image =
           Ok {| success := true;
                 message := "Successfully detected " ++ str_of_nat (length faces)
                            ++ " face(s)";
                 faces_detected := length faces;
                 emotions := results |}).
Proof.
  intros faces. unfold predict_emotion_body. fold faces.
  destruct faces as [| f rest].
  - left. split; reflexivity.
  - right. change (length (f :: rest) =? 0)%nat with false. cbv iota.
    destruct (predict_loop self image 0 (f :: rest) []) as [results | e].
    + right. exists results. split; [discriminate | split; reflexivity].
    + left. exists e. split; [discriminate | split; reflexivity].
Qed.

End Orchestrator.

Section Responses.

Context {L : Libs}.

(** C1, as amended.  When the filtered candidate list is empty (as it is
    when the generator returns no candidate), [predict_emotion] returns
    success = false with the message "No face detected", faces_detected = 0
    and no prediction. *)
Theorem predict_emotion_no_face (self : EmotionPredictor) (image : Image) :
  detect_faces_multi_scale self image = [] ->
  success (predict_emotion self image) = false
  /\ message (predict_emotion self image) = "No face detected"%string
  /\ faces_detected (predict_emotion self image) = 0%nat
  /\ emotions (predict_emotion self image) = [].
Proof.
  intros Hempty. unfold predict_emotion, predict_emotion_body.
  rewrite Hempty. simpl. repeat split.
Qed.

(** C5.  In every successful response faces_detected is the number of
    candidates that survived filtering, whatever the number of
    predictions; with 2 surviving candidates of which the first is
    preprocessed and scored and the second fails preprocessing, the
    orchestrator does not raise and answers success = true,
    faces_detected = 2 and exactly 1 prediction. *)
Theorem faces_detected_counts_survivors (self : EmotionPredictor) (image : Image) :
  (success (predict_emotion self image) = true ->
   faces_detected (predict_emotion self image)
   = length (detect_faces_multi_scale self image)
   /\ (length (emotions (predict_emotion self image))
       <= faces_detected (predict_emotion self image))%nat)
  /\ (forall x1 y1 w1 h1 x2 y2 w2 h2 processed_face prediction,
        detect_faces_multi_scale self image = [(x1, y1, w1, h1); (x2, y2, w2, h2)] ->
        preprocess_face_for_model (crop image x1 y1 w1 h1) = Some processed_face ->
        model_predict self processed_face = Ok prediction ->
        prediction <> [] ->
        (length prediction <= 3)%nat ->
        preprocess_face_for_model (crop image x2 y2 w2 h2) = None ->
        predict_emotion_body self image = Ok (predict_emotion self image)
        /\ success (predict_emotion self image) = true
        /\ faces_detected (predict_emotion self image) = 2%nat
        /\ length (emotions (predict_emotion self image)) = 1%nat).
Proof.
  split.
  - unfold predict_emotion.
    destruct (predict_emotion_cases self image)
      as [[_ Hbody] | [(e & _ & _ & Hbody) | (results & _ & Hloop & Hbody)]];
      rewrite Hbody; simpl; try discriminate.
    intros _. split; [reflexivity |].
    destruct (predict_loop_spec _ _ _ _ _ _ Hloop) as (added & -> & Hsub).
    apply Subseq_length in Hsub. rewrite length_map, length_seq in Hsub.
    simpl. exact Hsub.
  - intros x1 y1 w1 h1 x2 y2 w2 h2 processed_face prediction
      Hfaces Hpre1 Hmodel Hne Hlen Hpre2.
    destruct (predict_face_ok self image 0 _ _ _ _ _ _ Hpre1 Hmodel Hne Hlen)
      as (r & Hface1 & _).
    pose proof (predict_face_skipped self image 1 _ _ _ _ Hpre2) as Hface2.
    unfold predict_emotion, predict_emotion_body.
    rewrite Hfaces. cbn [predict_loop length Nat.eqb].
    rewrite Hface1. cbn [bind]. rewrite Hface2. simpl. repeat split.
Qed.

Lemma predict_face_box (self : EmotionPredictor) (image : Image) (i : nat)
  (f : Rect) (r : EmotionResult) :
  predict_face self image i f = Ok (Some r) -> bounding_box r = f.
Proof.
  destruct f as [[[x y] w] h]. unfold predict_face.
  destruct (preprocess_face_for_model (crop image x y w h)); [| discriminate].
  destruct (model_predict self t) as [prediction |]; [| discriminate]. simpl.
  destruct (np_argmax prediction); [| discriminate]. simpl.
  destruct (np_max prediction); [| discriminate]. simpl.
  destruct (emotion_labels a); [| discriminate]. simpl.
  destruct (all_predictions_from 0 prediction); [| discriminate]. simpl.
  intros [= <-]. reflexivity.
Qed.

(** Each identifier the loop adds is the index of a face of the list,
    counted from the loop's start, plus one, and the prediction's box
    is that face. *)
Lemma predict_loop_positions (self : EmotionPredictor) (image : Image)
  (faces : list Rect) (i : nat) (results out : list EmotionResult) :
  predict_loop self image i faces results = Ok out ->
  exists added,
    out = results ++ added
    /\ Forall (fun r => exists k, face_id r = S (i + k)
                                  /\ nth_error faces k = Some (bounding_box r))
              added.
Proof.
  revert i results.
  induction faces as [| f rest IH]; intros i results; simpl.
  - intros [= <-]. exists []. rewrite app_nil_r. split; constructor.
  - destruct (predict_face self image i f) as [[r |] |] eqn:Hface; simpl;
      [| | discriminate].
    + intros Hloop. destruct (IH _ _ Hloop) as (added & -> & Hall).
      exists (r :: added). rewrite <- app_assoc. split; [reflexivity |].
      constructor.
      * exists 0%nat. rewrite (predict_face_id _ _ _ _ _ Hface).
        rewrite (predict_face_box _ _ _ _ _ Hface). split; [lia | reflexivity].
      * eapply Forall_impl; [| exact Hall].
        intros r' (k & Hid & Hnth). exists (S k). split; [lia | exact Hnth].
    + intros Hloop. destruct (IH _ _ Hloop) as (added & -> & Hall).
      exists added. split; [reflexivity |].
      eapply Forall_impl; [| exact Hall].
      intros r' (k & Hid & Hnth). exists (S k). split; [lia | exact Hnth].
Qed.

(** C6, as amended.  In every response produced by [predict_emotion] a
    prediction carries the 1-based position of its candidate among the
    surviving candidates: the candidate at position face_id of the
    filtered list is the prediction's bounding box.  So the face_id
    values are strictly increasing, hence unique, and lie in
    1..faces_detected; they are exactly 1..N, N the number of
    predictions, when every surviving candidate gave a prediction. *)
Theorem face_ids_positions (self : EmotionPredictor) (image : Image) :
  let response := predict_emotion self image in
  let ids := map face_id (emotions response) in
  StronglySorted lt ids
  /\ NoDup ids
  /\ Forall (fun k => (1 <= k <= faces_detected response)%nat) ids
  /\ (length ids = faces_detected response -> ids = seq 1 (length ids))
  /\ Forall (fun r =>
               (1 <= face_id r)%nat
               /\ nth_error (detect_faces_multi_scale self image) (face_id r - 1)
                  = Some (bounding_box r))
            (emotions response).
Proof.
  intros response ids.
  assert (Hsub : Subseq ids (seq 1 (faces_detected response))).
  { unfold ids, response, predict_emotion.
    destruct (predict_emotion_cases self image)
      as [[_ Hbody] | [(e & _ & _ & Hbody) | (results & _ & Hloop & Hbody)]];
      rewrite Hbody; simpl; try constructor.
    destruct (predict_loop_spec _ _ _ _ _ _ Hloop) as (added & -> & Hsub).
    exact Hsub. }
  assert (Hsorted : StronglySorted lt ids).
  { eapply Subseq_StronglySorted; [exact Hsub | apply seq_StronglySorted]. }
  assert (Hpos : Forall (fun r =>
                           (1 <= face_id r)%nat
                           /\ nth_error (detect_faces_multi_scale self image)
                                        (face_id r - 1)
                              = Some (bounding_box r))
                        (emotions response)).
  { unfold response, predict_emotion.
    destruct (predict_emotion_cases self image)
      as [[_ Hbody] | [(e & _ & _ & Hbody) | (results & _ & Hloop & Hbody)]];
      rewrite Hbody; simpl; try constructor.
    destruct (predict_loop_positions _ _ _ _ _ _ Hloop) as (added & -> & Hall).
    simpl. eapply Forall_impl; [| exact Hall].
    intros r (k & Hid & Hnth). rewrite Hid. simpl. rewrite Nat.sub_0_r.
    split; [lia | exact Hnth]. }
  repeat split.
  - exact Hsorted.
  - apply StronglySorted_lt_NoDup. exact Hsorted.
  - eapply Subseq_Forall; [exact Hsub |].
    apply Forall_forall. intros k Hk. apply in_seq in Hk. lia.
  - intros Hlen. rewrite Hlen. apply Subseq_full; [exact Hsub |].
    rewrite length_seq. exact Hlen.
  - exact Hpos.
Qed.

(** C9.  If the body of [predict_emotion] raises an exception with text
    [e] (any exception; in particular when the classifier is unavailable
    and a surviving candidate reaches it), the exception is caught and
    the response is success = false, the message "Error during
    prediction: " followed by [e], faces_detected = 0 and no prediction,
    also when predictions had been collected before the failure. *)
Theorem predict_emotion_exception_caught (self : EmotionPredictor)
  (image : Image) (e : string) :
  predict_emotion_body self image = Raise e
  \/ ((forall t, model_predict self t = Raise e)
      /\ exists f, In f (detect_faces_multi_scale self image)
                   /\ preprocess_face_for_model
                        (let '(x, y, w, h) := f in crop image x y w h) <> None) ->
  success (predict_emotion self image) = false
  /\ message (predict_emotion self image) = ("Error during prediction: " ++ e)%string
  /\ faces_detected (predict_emotion self image) = 0%nat
  /\ emotions (predict_emotion self image) = [].
Proof.
  intros Hraise.
  assert (Hbody : predict_emotion_body self image = Raise e).
  { destruct Hraise as [Hbody | [Hmodel Hface]]; [exact Hbody |].
    pose proof (predict_loop_raise self image e _ 0 [] Hmodel Hface) as Hloop.
    destruct (predict_emotion_cases self image)
      as [[Hnone _] | [(e' & _ & Hloop' & Hbody) | (results & _ & Hloop' & _)]].
    - destruct Hface as (f & Hin & _). rewrite Hnone in Hin. destruct Hin.
    - rewrite Hbody. congruence.
    - congruence. }
  unfold predict_emotion. rewrite Hbody. simpl. repeat split.
Qed.

End Responses.

(** ** Non-maximum suppression *)

Section Suppression.

Context {L : Libs}.

Lemma overlap_ratio_sym (a b : Rect) : overlap_ratio a b = overlap_ratio b a.
Proof.
  destruct a as [[[ax ay] aw] ah], b as [[[bx by_] bw] bh].
  unfold overlap_ratio.
  rewrite (Z.max_comm bx ax), (Z.max_comm by_ ay).
  rewrite (Z.min_comm (bx + bw)), (Z.min_comm (by_ + bh)).
  rewrite (Z.add_comm (bw * bh)). reflexivity.
Qed.

Lemma within_threshold_sym (overlap_threshold : Q) (a b : Rect) :
  within_threshold overlap_threshold a b -> within_threshold overlap_threshold b a.
Proof. unfold within_threshold. rewrite overlap_ratio_sym. trivial. Qed.

Lemma filter_Subseq {A : Type} (p : A -> bool) (l : list A) : Subseq (filter p l) l.
Proof.
  induction l as [| a l IH]; simpl.
  - constructor.
  - destruct (p a); [apply Subseq_take | apply Subseq_skip]; exact IH.
Qed.

Lemma Subseq_trans {A : Type} (l1 l2 l3 : list A) :
  Subseq l1 l2 -> Subseq l2 l3 -> Subseq l1 l3.
Proof.
  intros H12 H23. revert l1 H12.
  induction H23 as [| x l2 l3 _ IH | x l2 l3 _ IH]; intros l1 H12.
  - exact H12.
  - apply Subseq_skip. auto.
  - inversion H12; subst.
    + apply Subseq_skip. auto.
    + apply Subseq_take. auto.
Qed.

(** The kept indices are taken from [indices] in order, and each one
    passed the mask of every index kept before it. *)
Lemma nms_loop_spec (faces : list Rect) (overlap_threshold : Q) (indices : list nat) :
  Subseq (nms_loop faces overlap_threshold indices) indices
  /\ ForallOrdPairs
       (fun i j => within_threshold overlap_threshold (face_at faces i) (face_at faces j))
       (nms_loop faces overlap_threshold indices).
Proof.
  funelim (nms_loop faces overlap_threshold indices).
  - simp nms_loop. split; constructor.
  - simp nms_loop. destruct H as [Hsub Hpairs]. split.
    + apply Subseq_take.
      eapply Subseq_trans; [exact Hsub | apply filter_Subseq].
    + constructor; [| exact Hpairs].
      apply Forall_forall. intros o Ho.
      eapply Subseq_In in Ho; [| exact Hsub].
      apply filter_In in Ho. destruct Ho as [_ Ho]. exact Ho.
Qed.

(** When every two indices pass each other's mask, nothing is
    suppressed. *)
Lemma nms_loop_keeps_all (faces : list Rect) (overlap_threshold : Q)
  (indices : list nat) :
  NoDup indices ->
  (forall i j, In i indices -> In j indices -> i <> j ->
               within_threshold overlap_threshold (face_at faces i) (face_at faces j)) ->
  nms_loop faces overlap_threshold indices = indices.
Proof.
  induction indices as [| current other IH]; intros Hnodup Hpairs.
  - simp nms_loop. reflexivity.
  - simp nms_loop. inversion Hnodup as [| ? ? Hnotin Hnodup']; subst.
    assert (Hfilter :
      filter (fun o => np_le (overlap_ratio (face_at faces current) (face_at faces o))
                             overlap_threshold) other = other).
    { apply forallb_filter_id. apply forallb_forall. intros o Ho.
      apply Hpairs; [left; reflexivity | right; exact Ho |].
      intros ->. contradiction. }
    rewrite Hfilter. f_equal. apply IH; [exact Hnodup' |].
    intros i j Hi Hj. apply Hpairs; right; assumption.
Qed.

Lemma ForallOrdPairs_map {A B : Type} (f : A -> B) (R : B -> B -> Prop) (l : list A) :
  ForallOrdPairs (fun a b => R (f a) (f b)) l -> ForallOrdPairs R (map f l).
Proof.
  induction 1 as [| a l Hall _ IH]; simpl; constructor; [| exact IH].
  apply Forall_map. exact Hall.
Qed.

Lemma ForallOrdPairs_nth {A : Type} (R : A -> A -> Prop) (d : A) (l : list A) :
  ForallOrdPairs R l ->
  forall i j, (i < j)%nat -> (j < length l)%nat -> R (nth i l d) (nth j l d).
Proof.
  induction 1 as [| a l Hall _ IH]; intros i j Hij Hj; simpl in Hj.
  - lia.
  - destruct j as [| j]; [lia |]. destruct i as [| i]; simpl.
    + rewrite Forall_forall in Hall. apply Hall, nth_In. lia.
    + apply IH; lia.
Qed.

Lemma map_nth_seq {A : Type} (d : A) (l : list A) :
  map (fun i => nth i l d) (seq 0 (length l)) = l.
Proof.
  induction l as [| a l IH]; simpl; [reflexivity |].
  f_equal. rewrite <- seq_shift, map_map. exact IH.
Qed.

(** The output is pairwise within the threshold, in the order kept. *)
Lemma non_max_suppression_pairs (faces : list Rect) (overlap_threshold : Q) :
  ForallOrdPairs (within_threshold overlap_threshold)
    (non_max_suppression faces overlap_threshold).
Proof.
  unfold non_max_suppression. destruct faces as [| f rest]; [constructor |].
  apply ForallOrdPairs_map. apply nms_loop_spec.
Qed.

Context {LS : LibsSpec L}.

Lemma argsort_indices (a : list Z) :
  NoDup (rev (np_argsort a))
  /\ Permutation (rev (np_argsort a)) (seq 0 (length a)).
Proof.
  assert (Hperm : Permutation (rev (np_argsort a)) (seq 0 (length a))).
  { etransitivity; [symmetry; apply Permutation_rev | apply np_argsort_perm]. }
  split; [| exact Hperm].
  eapply Permutation_NoDup; [symmetry; exact Hperm | apply seq_NoDup].
Qed.

(** Suppression only removes: what comes out was put in. *)
Lemma non_max_suppression_In (faces : list Rect) (overlap_threshold : Q) (f : Rect) :
  In f (non_max_suppression faces overlap_threshold) -> In f faces.
Proof.
  unfold non_max_suppression. destruct faces as [| g rest]; [trivial |].
  set (faces := g :: rest). intros Hin.
  apply in_map_iff in Hin. destruct Hin as (i & <- & Hi).
  destruct (nms_loop_spec faces overlap_threshold (rev (np_argsort (map rect_area faces))))
    as [Hsub _].
  eapply Subseq_In in Hi; [| exact Hsub].
  destruct (argsort_indices (map rect_area faces)) as [_ Hperm].
  eapply Permutation_in in Hi; [| exact Hperm].
  apply in_seq in Hi. rewrite length_map in Hi.
  apply nth_In. lia.
Qed.


(** C8.  [non_max_suppression] is idempotent up to the order of its
    output: applied to its own output with the same threshold it returns
    the same rectangles, each as many times, and suppresses nothing. *)
Theorem non_max_suppression_idempotent (faces : list Rect) (overlap_threshold : Q) :
  let kept := non_max_suppression faces overlap_threshold in
  Permutation (non_max_suppression kept overlap_threshold) kept
  /\ length (non_max_suppression kept overlap_threshold) = length kept.
Proof.
  intros kept.
  assert (Hperm : Permutation (non_max_suppression kept overlap_threshold) kept).
  { pose proof (non_max_suppression_pairs faces overlap_threshold) as Hpairs.
    fold kept in Hpairs. clearbody kept.
    destruct kept as [| k rest] eqn:Hkept; [constructor |].
    rewrite <- Hkept in *. unfold non_max_suppression at 1.
    rewrite Hkept at 1. cbv zeta.
    destruct (argsort_indices (map rect_area kept)) as [Hnodup Hindices].
    rewrite length_map in Hindices.
    rewrite nms_loop_keeps_all.
    - rewrite <- (map_nth_seq (0, 0, 0, 0) kept) at 3.
      apply Permutation_map. exact Hindices.
    - exact Hnodup.
    - intros a b Ha Hb Hab.
      eapply Permutation_in in Ha; [| exact Hindices].
      eapply Permutation_in in Hb; [| exact Hindices].
      apply in_seq in Ha. apply in_seq in Hb. unfold face_at.
      destruct (Nat.lt_total a b) as [Hlt | [Heq | Hgt]]; [| contradiction |].
      + apply (ForallOrdPairs_nth _ _ _ Hpairs); lia.
      + apply within_threshold_sym.
        apply (ForallOrdPairs_nth _ _ _ Hpairs); lia. }
  split; [exact Hperm |].
  apply Permutation_length. exact Hperm.
Qed.

End Suppression.

(** ** Non-maximum suppression in the arithmetic of numpy *)

Lemma wrap64_small (z : Z) : - 2 ^ 63 <= z < 2 ^ 63 -> wrap64 z = z.
Proof.
  intros Hz. unfold wrap64.
  change (2 ^ 63) with 9223372036854775808 in *.
  change (2 ^ 64) with 18446744073709551616.
  rewrite Z.mod_small; lia.
Qed.

Lemma overlap_counts_int64_sym (a b : Rect) :
  overlap_counts_int64 a b = overlap_counts_int64 b a.
Proof.
  destruct a as [[[ax ay] aw] ah], b as [[[bx by_] bw] bh].
  unfold overlap_counts_int64.
  rewrite (Z.max_comm bx ax), (Z.max_comm by_ ay).
  rewrite (Z.min_comm (wrap64 (bx + bw))), (Z.min_comm (wrap64 (by_ + bh))).
  rewrite (Z.add_comm (wrap64 (bw * bh))). reflexivity.
Qed.

Lemma overlap_ratio_f64_sym (a b : Rect) : overlap_ratio_f64 a b = overlap_ratio_f64 b a.
Proof. unfold overlap_ratio_f64. rewrite overlap_counts_int64_sym. reflexivity. Qed.

(** On rectangles inside the safe range the 64-bit intersection and
    union are the exact ones. *)
Lemma overlap_counts_int64_exact (a b : Rect) :
  int64_safe a -> int64_safe b -> overlap_counts_int64 a b = overlap_counts a b.
Proof.
  destruct a as [[[ax ay] aw] ah], b as [[[bx by_] bw] bh].
  unfold int64_safe, overlap_counts_int64, overlap_counts.
  change (2 ^ 31) with 2147483648.
  intros (Hax & Hay & Haw & Hah & Hax2 & Hay2) (Hbx & Hby & Hbw & Hbh & Hbx2 & Hby2).
  assert (Hbig : 2147483648 * 2147483648 = 4611686018427387904) by reflexivity.
  assert (Hrange : forall z, - 4611686018427387904 <= z < 9223372036854775808 ->
                             wrap64 z = z).
  { intros z Hz. apply wrap64_small.
    change (2 ^ 63) with 9223372036854775808. lia. }
  rewrite (Hrange (ax + aw)), (Hrange (bx + bw)), (Hrange (ay + ah)),
    (Hrange (by_ + bh)) by lia.
  rewrite (Hrange (Z.min (ax + aw) (bx + bw) - Z.max ax bx)) by lia.
  rewrite (Hrange (Z.min (ay + ah) (by_ + bh) - Z.max ay by_)) by lia.
  set (w := Z.max 0 (Z.min (ax + aw) (bx + bw) - Z.max ax bx)).
  set (h := Z.max 0 (Z.min (ay + ah) (by_ + bh) - Z.max ay by_)).
  assert (Hw : 0 <= w < 2147483648) by (unfold w; lia).
  assert (Hh : 0 <= h < 2147483648) by (unfold h; lia).
  assert (Hwa : w <= aw) by (unfold w; lia).
  assert (Hha : h <= ah) by (unfold h; lia).
  assert (Hinter : 0 <= w * h < 4611686018427387904).
  { split; [apply Z.mul_nonneg_nonneg; lia |].
    rewrite <- Hbig. apply Z.mul_lt_mono_nonneg; lia. }
  assert (Ha : 0 <= aw * ah < 4611686018427387904).
  { split; [apply Z.mul_nonneg_nonneg; lia |].
    rewrite <- Hbig. apply Z.mul_lt_mono_nonneg; lia. }
  assert (Hb : 0 <= bw * bh < 4611686018427387904).
  { split; [apply Z.mul_nonneg_nonneg; lia |].
    rewrite <- Hbig. apply Z.mul_lt_mono_nonneg; lia. }
  rewrite (Hrange (w * h)), (Hrange (aw * ah)), (Hrange (bw * bh)) by lia.
  rewrite (Hrange (aw * ah + bw * bh)) by lia.
  rewrite (Hrange (aw * ah + bw * bh - w * h)) by lia.
  reflexivity.
Qed.

Section NumpySuppression.

Context {L : Libs}.

(** The kept indices are taken from [indices] in order, and each one
    passed the mask of every index kept before it. *)
Lemma nms_loop_f64_spec (faces : list Rect) (overlap_threshold : float64)
  (indices : list nat) :
  Subseq (nms_loop_f64 faces overlap_threshold indices) indices
  /\ ForallOrdPairs
       (fun i j => f64_le (overlap_ratio_f64 (face_at faces i) (face_at faces j))
                          overlap_threshold = true)
       (nms_loop_f64 faces overlap_threshold indices).
Proof.
  funelim (nms_loop_f64 faces overlap_threshold indices).
  - simp nms_loop_f64. split; constructor.
  - simp nms_loop_f64. destruct H as [Hsub Hpairs]. split.
    + apply Subseq_take.
      eapply Subseq_trans; [exact Hsub | apply filter_Subseq].
    + constructor; [| exact Hpairs].
      apply Forall_forall. intros o Ho.
      eapply Subseq_In in Ho; [| exact Hsub].
      apply filter_In in Ho. destruct Ho as [_ Ho]. exact Ho.
Qed.

Lemma non_max_suppression_f64_pairs (faces : list Rect) (overlap_threshold : float64) :
  ForallOrdPairs
    (fun a b => f64_le (overlap_ratio_f64 a b) overlap_threshold = true)
    (non_max_suppression_f64 faces overlap_threshold).
Proof.
  unfold non_max_suppression_f64. destruct faces as [| f rest]; [constructor |].
  apply ForallOrdPairs_map. apply nms_loop_f64_spec.
Qed.

(** C7, as amended.  For every list of candidates with 64-bit integer
    coordinates and every threshold, any two rectangles at distinct
    positions of the output of [non_max_suppression] have a computed
    overlap ratio, the binary64 quotient of the intersection and the
    union computed in 64-bit integers, that is less than or equal to the
    threshold.  For rectangles of non-negative corner and size with
    right and bottom edges below 2^31 the two integers are the exact
    intersection and union: the computed ratio is the binary64 quotient
    of the exact intersection and the exact union. *)
Theorem non_max_suppression_f64_overlap (faces : list Rect)
  (overlap_threshold : float64) (i j : nat) :
  let kept := non_max_suppression_f64 faces overlap_threshold in
  Forall int64_rect faces ->
  i <> j ->
  (i < length kept)%nat ->
  (j < length kept)%nat ->
  f64_le (overlap_ratio_f64 (face_at kept i) (face_at kept j)) overlap_threshold = true
  /\ (int64_safe (face_at kept i) ->
      int64_safe (face_at kept j) ->
      overlap_ratio_f64 (face_at kept i) (face_at kept j)
      = f64_div (f64_of_int (fst (overlap_counts (face_at kept i) (face_at kept j))))
                (f64_of_int (snd (overlap_counts (face_at kept i) (face_at kept j))))).
Proof.
  intros kept _ Hij Hi Hj. split.
  - pose proof (non_max_suppression_f64_pairs faces overlap_threshold) as Hpairs.
    fold kept in Hpairs. unfold face_at.
    destruct (Nat.lt_total i j) as [Hlt | [Heq | Hgt]]; [| contradiction |].
    + apply (ForallOrdPairs_nth _ _ _ Hpairs); assumption.
    + rewrite overlap_ratio_f64_sym.
      apply (ForallOrdPairs_nth _ _ _ Hpairs); assumption.
  - intros Hsafe_i Hsafe_j. unfold overlap_ratio_f64.
    rewrite (overlap_counts_int64_exact _ _ Hsafe_i Hsafe_j).
    destruct (overlap_counts (face_at kept i) (face_at kept j)). reflexivity.
Qed.

End NumpySuppression.

(** ** The variance of a uniform region *)

Lemma Qsum_uniform (v : Z) (l : list Z) :
  Forall (fun p => p = v) l ->
  (Qsum (map inject_Z l) == inject_Z v * inject_Z (Z.of_nat (length l)))%Q.
Proof.
  induction 1 as [| p l -> _ IH]; simpl Qsum; simpl length.
  - ring.
  - rewrite IH, Nat2Z.inj_succ. unfold Z.succ. rewrite inject_Z_plus. ring.
Qed.

Lemma length_nonzero_Q {A : Type} (l : list A) :
  l <> [] -> ~ (inject_Z (Z.of_nat (length l)) == 0)%Q.
Proof.
  intros Hne. destruct l as [| a l]; [congruence |].
  unfold Qeq. simpl. lia.
Qed.

Lemma mean_uniform (v : Z) (l : list Z) :
  l <> [] -> Forall (fun p => p = v) l -> (mean l == inject_Z v)%Q.
Proof.
  intros Hne Hall. unfold mean. rewrite (Qsum_uniform v l Hall).
  apply Qdiv_mult_l. apply length_nonzero_Q. exact Hne.
Qed.

Lemma deviations_uniform (v : Z) (m : Q) (l : list Z) :
  (m == inject_Z v)%Q ->
  Forall (fun p => p = v) l ->
  (Qsum (map (fun p => (inject_Z p - m) * (inject_Z p - m)) l) == 0)%Q.
Proof.
  intros Hm. induction 1 as [| p l -> _ IH]; simpl Qsum.
  - reflexivity.
  - rewrite IH, Hm. ring.
Qed.

Lemma np_var_uniform (v : Z) (l : list Z) :
  l <> [] -> Forall (fun p => p = v) l -> (np_var l == 0)%Q.
Proof.
  intros Hne Hall. unfold np_var.
  rewrite (deviations_uniform v (mean l) l (mean_uniform v l Hne Hall) Hall).
  unfold Qdiv. ring.
Qed.

(** ** The false-positive filter *)

Section Filter.

Context {L : Libs}.

Lemma passes_checks_zero_height (self : EmotionPredictor) (image : Image) (f : Rect) :
  rect_h f = 0 -> passes_checks self image f = Raise "division by zero"%string.
Proof.
  destruct f as [[[x y] w] h]. simpl. intros ->. reflexivity.
Qed.

Lemma passes_checks_total (self : EmotionPredictor) (image : Image) (f : Rect) :
  rect_h f <> 0 -> exists keep, passes_checks self image f = Ok keep.
Proof.
  destruct f as [[[x y] w] h]. simpl. intros Hh.
  unfold passes_checks. apply Z.eqb_neq in Hh. rewrite Hh. simpl.
  repeat match goal with
         | |- context [if ?c then _ else _] => destruct c
         end; eexists; reflexivity.
Qed.

(** The aspect test rejects 300 by 50. *)
Lemma passes_checks_300_50 (self : EmotionPredictor) (image : Image) (x y : Z) :
  passes_checks self image (x, y, 300, 50) = Ok false.
Proof. reflexivity. Qed.

(** The variance test rejects a uniform region, when the candidate gets
    that far. *)
Lemma passes_checks_uniform (self : EmotionPredictor) (image : Image) (f : Rect) :
  region_uniform image f -> passes_checks self image f <> Ok true.
Proof.
  destruct f as [[[x y] w] h]. unfold region_uniform.
  intros (Hne & v & Hall). unfold passes_checks.
  destruct (h =? 0); [discriminate |]. simpl.
  destruct (negb _); [discriminate |].
  destruct (_ || _); [discriminate |].
  assert (Hsize : (0 <? size (crop image x y w h)) = true).
  { apply Z.ltb_lt. unfold size.
    destruct (values (crop image x y w h)); [congruence | simpl; lia]. }
  rewrite Hsize.
  destruct (Qlt_le_dec (np_var (values (crop image x y w h))) 100) as [Hlt | Hge].
  - discriminate.
  - rewrite (np_var_uniform v _ Hne Hall) in Hge.
    exfalso. revert Hge. unfold Qle. simpl. lia.
Qed.

Lemma checks_loop_raise (self : EmotionPredictor) (image : Image)
  (faces filtered_faces : list Rect) :
  (exists f, In f faces /\ rect_h f = 0) ->
  checks_loop self image faces filtered_faces = Raise "division by zero"%string.
Proof.
  revert filtered_faces.
  induction faces as [| g rest IH]; intros acc (f & Hin & Hh).
  - destruct Hin.
  - simpl. destruct (Z.eq_dec (rect_h g) 0) as [Hg | Hg].
    + rewrite (passes_checks_zero_height _ _ _ Hg). reflexivity.
    + destruct (passes_checks_total self image g Hg) as [keep ->]. simpl.
      apply IH. exists f. split; [| exact Hh].
      destruct Hin as [-> | Hin]; [contradiction | exact Hin].
Qed.

Lemma checks_loop_ok (self : EmotionPredictor) (image : Image)
  (faces filtered_faces : list Rect) :
  (forall g, In g faces -> rect_h g <> 0) ->
  exists tail,
    checks_loop self image faces filtered_faces = Ok (filtered_faces ++ tail)
    /\ Subseq tail faces
    /\ Forall (fun f => passes_checks self image f = Ok true) tail.
Proof.
  revert filtered_faces.
  induction faces as [| g rest IH]; intros acc Hheights; simpl.
  - exists []. rewrite app_nil_r. repeat split; constructor.
  - destruct (passes_checks_total self image g) as [keep Hg];
      [apply Hheights; left; reflexivity |].
    rewrite Hg. simpl.
    destruct (IH (if keep then acc ++ [g] else acc)) as (tail & -> & Hsub & Hall);
      [intros; apply Hheights; right; assumption |].
    destruct keep.
    + exists (g :: tail). rewrite <- app_assoc. repeat split.
      * apply Subseq_take. exact Hsub.
      * constructor; assumption.
    + exists tail. repeat split; [apply Subseq_skip; exact Hsub | exact Hall].
Qed.

(** C10.  If the body of [filter_false_positives] raises an exception
    (any exception; in particular a candidate of height 0 raises one at
    the aspect-ratio division, wherever it stands in the list and
    whatever was processed before it), the function returns its input
    list unchanged: none of the aspect-ratio, size, variance and bounds
    tests nor the suppression is applied to any candidate. *)
Theorem filter_false_positives_error_bypass (self : EmotionPredictor)
  (faces : list Rect) (image : Image) :
  (exists e, filter_false_positives_body self faces image = Raise e)
  \/ (exists f, In f faces /\ rect_h f = 0) ->
  filter_false_positives self faces image = faces.
Proof.
  intros Hraise.
  assert (Hbody : exists e, filter_false_positives_body self faces image = Raise e).
  { destruct Hraise as [Hbody | Hzero]; [exact Hbody |].
    exists "division by zero"%string. unfold filter_false_positives_body.
    destruct faces as [| f rest]; [destruct Hzero as (f & [] & _) |].
    rewrite (checks_loop_raise self image _ [] Hzero). reflexivity. }
  destruct Hbody as [e Hbody].
  unfold filter_false_positives. rewrite Hbody. reflexivity.
Qed.

Context {LS : LibsSpec L}.

Lemma zero_height_dec (faces : list Rect) :
  (exists f, In f faces /\ rect_h f = 0) \/ (forall g, In g faces -> rect_h g <> 0).
Proof.
  induction faces as [| g rest [(f & Hin & Hh) | Hnone]].
  - right. intros g [].
  - left. exists f. split; [right; exact Hin | exact Hh].
  - destruct (Z.eq_dec (rect_h g) 0) as [Hg | Hg].
    + left. exists g. split; [left; reflexivity | exact Hg].
    + right. intros g' [<- | Hin]; [exact Hg | apply Hnone; exact Hin].
Qed.

(** When the body ends without an exception, what the filter returns are
    input candidates that passed every test of the loop. *)
Lemma filter_false_positives_sound (self : EmotionPredictor)
  (faces filtered_faces : list Rect) (image : Image) (f : Rect) :
  filter_false_positives_body self faces image = Ok filtered_faces ->
  In f filtered_faces ->
  In f faces /\ passes_checks self image f = Ok true.
Proof.
  unfold filter_false_positives_body.
  destruct faces as [| g rest]; [intros [= <-] [] |].
  destruct (zero_height_dec (g :: rest)) as [Hzero | Hheights].
  { rewrite (checks_loop_raise self image _ [] Hzero). discriminate. }
  destruct (checks_loop_ok self image (g :: rest) [] Hheights)
    as (tail & -> & Hsub & Hall).
  simpl app. cbn [bind]. intros [= <-] Hin.
  assert (Htail : In f tail).
  { destruct (1 <? length tail)%nat; [| exact Hin].
    eapply non_max_suppression_In. exact Hin. }
  split.
  - eapply Subseq_In; eassumption.
  - rewrite Forall_forall in Hall. apply Hall. exact Htail.
Qed.

Lemma filter_false_positives_ok (self : EmotionPredictor)
  (faces filtered_faces : list Rect) (image : Image) :
  filter_false_positives_body self faces image = Ok filtered_faces ->
  filter_false_positives self faces image = filtered_faces.
Proof. intros Hbody. unfold filter_false_positives. rewrite Hbody. reflexivity. Qed.

(** C3, as amended.  A candidate of width 300 and height 50 is discarded
    by [filter_false_positives] (aspect ratio 6.0) whenever that function
    ends without an internal error.  The prediction pipeline filters with
    [detect_faces_multi_scale] alone, which has no aspect-ratio test: such
    a candidate passes its size gate and is kept when it is the first raw
    candidate. *)
Theorem aspect_ratio_filter (self : EmotionPredictor) (image : Image) (f : Rect) :
  rect_w f = 300 ->
  rect_h f = 50 ->
  (forall faces filtered_faces,
     filter_false_positives_body self faces image = Ok filtered_faces ->
     filter_false_positives self faces image = filtered_faces
     /\ ~ In f filtered_faces)
  /\ (forall rest,
        face_cascade_detectMultiScale self (reduce_background_noise self image)
        = Ok (f :: rest) ->
        In f (detect_faces_multi_scale self image)).
Proof.
  intros Hw Hh. destruct f as [[[x y] w] h]. simpl in Hw, Hh. subst w h. split.
  - intros faces filtered_faces Hbody.
    split; [apply filter_false_positives_ok; exact Hbody |]. intros Hin.
    destruct (filter_false_positives_sound self faces _ image _ Hbody Hin) as [_ Hpass].
    rewrite passes_checks_300_50 in Hpass. discriminate.
  - intros rest Hgen.
    destruct (detect_keeps_first self image _ rest Hgen) as [tail ->].
    + unfold in_size_range. simpl. lia.
    + left. reflexivity.
Qed.

(** C4, as amended.  A candidate whose region is uniform has variance 0
    and is discarded by [filter_false_positives], whatever its size and
    aspect ratio, whenever that function ends without an internal error.
    The prediction pipeline filters with [detect_faces_multi_scale] alone,
    which has no variance test: a uniform candidate inside the size gate is
    kept when it is the first raw candidate. *)
Theorem variance_filter (self : EmotionPredictor) (image : Image) (f : Rect) :
  region_uniform image f ->
  (let '(x, y, w, h) := f in (np_var (values (crop image x y w h)) == 0)%Q)
  /\ (forall faces filtered_faces,
        filter_false_positives_body self faces image = Ok filtered_faces ->
        filter_false_positives self faces image = filtered_faces
        /\ ~ In f filtered_faces)
  /\ (forall rest,
        in_size_range f ->
        face_cascade_detectMultiScale self (reduce_background_noise self image)
        = Ok (f :: rest) ->
        In f (detect_faces_multi_scale self image)).
Proof.
  intros Huniform. split; [| split].
  - destruct f as [[[x y] w] h]. destruct Huniform as (Hne & v & Hall).
    exact (np_var_uniform v _ Hne Hall).
  - intros faces filtered_faces Hbody.
    split; [apply filter_false_positives_ok; exact Hbody |]. intros Hin.
    destruct (filter_false_positives_sound self faces _ image _ Hbody Hin) as [_ Hpass].
    exact (passes_checks_uniform self image f Huniform Hpass).
  - intros rest Hsize Hgen.
    destruct (detect_keeps_first self image _ rest Hgen Hsize) as [tail ->].
    left. reflexivity.
Qed.

End Filter.

(** ** The stub collaborators meet what is assumed of the libraries *)

Lemma insert_index_perm (a : list Z) (i : nat) (sorted : list nat) :
  Permutation (Stubs.insert_index a i sorted) (i :: sorted).
Proof.
  induction sorted as [| j rest IH]; simpl.
  - apply Permutation_refl.
  - destruct (nth i a 0 <? nth j a 0).
    + apply Permutation_refl.
    + etransitivity; [apply perm_skip, IH | apply perm_swap].
Qed.

Lemma fold_insert_index_perm (a : list Z) (l sorted : list nat) :
  Permutation (fold_left (fun s i => Stubs.insert_index a i s) l sorted) (l ++ sorted).
Proof.
  revert sorted. induction l as [| i l IH]; intros sorted; simpl.
  - apply Permutation_refl.
  - etransitivity; [apply IH |].
    etransitivity; [apply Permutation_app_head, insert_index_perm |].
    symmetry. apply Permutation_middle.
Qed.

#[export] Instance stub_libs_spec : LibsSpec Stubs.libs.
Proof.
  constructor. intros l. simpl. unfold Stubs.argsort.
  rewrite <- (app_nil_r (seq 0 (length l))) at 2.
  apply fold_insert_index_perm.
Qed.

(** ** Runs on concrete frames *)

#[local] Existing Instance Stubs.libs.

Lemma predict_emotion_no_face_witness :
  detect_faces_multi_scale (Stubs.predictor [] (Ok Stubs.scores)) Stubs.frame = []
  /\ success (predict_emotion (Stubs.predictor [] (Ok Stubs.scores)) Stubs.frame) = false
  /\ message (predict_emotion (Stubs.predictor [] (Ok Stubs.scores)) Stubs.frame)
     = "No face detected"%string
  /\ faces_detected (predict_emotion (Stubs.predictor [] (Ok Stubs.scores)) Stubs.frame)
     = 0%nat
  /\ emotions (predict_emotion (Stubs.predictor [] (Ok Stubs.scores)) Stubs.frame) = [].
Proof.
  split; [reflexivity |].
  apply (predict_emotion_no_face (Stubs.predictor [] (Ok Stubs.scores)) Stubs.frame).
  reflexivity.
Defined.

(** C1 fails as stated: with an empty generator output the response has
    success = false. *)
Lemma no_face_success_counterexample :
  face_cascade_detectMultiScale (Stubs.predictor [] (Ok Stubs.scores))
    (reduce_background_noise (Stubs.predictor [] (Ok Stubs.scores)) Stubs.frame) = Ok []
  /\ ~ (success (predict_emotion (Stubs.predictor [] (Ok Stubs.scores)) Stubs.frame) = true
        /\ faces_detected (predict_emotion (Stubs.predictor [] (Ok Stubs.scores)) Stubs.frame)
           = 0%nat
        /\ emotions (predict_emotion (Stubs.predictor [] (Ok Stubs.scores)) Stubs.frame) = []).
Proof.
  split; [reflexivity |].
  intros [Hsuccess _]. vm_compute in Hsuccess. discriminate.
Qed.

Lemma detect_faces_cap_witness :
  (length (detect_faces_multi_scale
             (Stubs.predictor Stubs.four_faces (Ok Stubs.scores)) Stubs.frame) <= 3)%nat
  /\ detect_faces_multi_scale (Stubs.predictor Stubs.four_faces (Ok Stubs.scores)) Stubs.frame
     = [(0, 0, 30, 30); (100, 0, 30, 30); (200, 0, 30, 30)].
Proof.
  destruct (detect_faces_cap (Stubs.predictor Stubs.four_faces (Ok Stubs.scores)) Stubs.frame)
    as [Hcap Hfirst].
  split; [exact Hcap |].
  destruct (Hfirst Stubs.four_faces eq_refl) as [Heq _].
  rewrite Heq. reflexivity.
Defined.

(** C2 fails as stated: four candidates pass the filtering and the one
    dropped is larger than each of the three kept. *)
Lemma largest_area_counterexample :
  (3 < length (size_and_duplicate_loop Stubs.four_faces []))%nat
  /\ ~ (forall k d,
          In k (detect_faces_multi_scale
                  (Stubs.predictor Stubs.four_faces (Ok Stubs.scores)) Stubs.frame) ->
          In d (size_and_duplicate_loop Stubs.four_faces []) ->
          ~ In d (detect_faces_multi_scale
                    (Stubs.predictor Stubs.four_faces (Ok Stubs.scores)) Stubs.frame) ->
          rect_area d <= rect_area k).
Proof.
  split; [vm_compute; lia |].
  intros Hlargest.
  specialize (Hlargest (0, 0, 30, 30) (0, 100, 200, 200)).
  vm_compute in Hlargest. apply Hlargest.
  - left; reflexivity.
  - do 3 right. left; reflexivity.
  - intros [H | [H | [H | []]]]; discriminate.
  - reflexivity.
Qed.

Lemma aspect_ratio_filter_witness :
  filter_false_positives Stubs.small_predictor
    [Stubs.wide_face; Stubs.small_face] Stubs.textured_frame
  = [Stubs.small_face]
  /\ ~ In Stubs.wide_face [Stubs.small_face]
  /\ In Stubs.wide_face
        (detect_faces_multi_scale
           (Stubs.predictor [Stubs.wide_face; Stubs.square_face] (Ok Stubs.scores))
           Stubs.wide_frame).
Proof.
  destruct (aspect_ratio_filter Stubs.small_predictor
              Stubs.textured_frame Stubs.wide_face eq_refl eq_refl) as [Hfilter _].
  destruct (aspect_ratio_filter
              (Stubs.predictor [Stubs.wide_face; Stubs.square_face] (Ok Stubs.scores))
              Stubs.wide_frame Stubs.wide_face eq_refl eq_refl) as [_ Hdetect].
  destruct (Hfilter [Stubs.wide_face; Stubs.small_face] [Stubs.small_face])
    as [Heq Hnotin]; [vm_compute; reflexivity |].
  split; [exact Heq |]. split; [exact Hnotin |].
  apply (Hdetect [Stubs.square_face]). reflexivity.
Defined.

(** C3 fails as stated: the elongated raw candidate survives the
    filtering of the prediction pipeline and is the face of the
    response. *)
Lemma aspect_ratio_pipeline_counterexample :
  face_cascade_detectMultiScale (Stubs.predictor [Stubs.wide_face] (Ok Stubs.scores))
    (reduce_background_noise (Stubs.predictor [Stubs.wide_face] (Ok Stubs.scores))
       Stubs.wide_frame) = Ok [Stubs.wide_face]
  /\ rect_w Stubs.wide_face = 300
  /\ rect_h Stubs.wide_face = 50
  /\ In Stubs.wide_face
        (detect_faces_multi_scale (Stubs.predictor [Stubs.wide_face] (Ok Stubs.scores))
           Stubs.wide_frame)
  /\ map bounding_box
         (emotions (predict_emotion (Stubs.predictor [Stubs.wide_face] (Ok Stubs.scores))
                      Stubs.wide_frame))
     = [Stubs.wide_face].
Proof.
  split; [reflexivity |]. split; [reflexivity |]. split; [reflexivity |]. split.
  - left. reflexivity.
  - vm_compute. reflexivity.
Qed.

Lemma square_face_uniform : region_uniform Stubs.frame Stubs.square_face.
Proof.
  unfold region_uniform, Stubs.square_face. split.
  - vm_compute. discriminate.
  - exists 128. apply Forall_forall. intros p Hp.
    assert (Hall : forallb (Z.eqb 128)
                     (values (crop Stubs.frame 10 10 40 40)) = true)
      by (vm_compute; reflexivity).
    rewrite forallb_forall in Hall. specialize (Hall p Hp).
    apply Z.eqb_eq in Hall. symmetry. exact Hall.
Qed.

Lemma small_face_uniform : region_uniform Stubs.small_frame Stubs.small_face.
Proof.
  unfold region_uniform, Stubs.small_face. split.
  - vm_compute. discriminate.
  - exists 128. vm_compute. repeat constructor.
Qed.

Lemma variance_filter_witness :
  (np_var (values (crop Stubs.small_frame 0 0 4 4)) == 0)%Q
  /\ filter_false_positives Stubs.small_predictor [Stubs.small_face] Stubs.small_frame = []
  /\ In Stubs.square_face
        (detect_faces_multi_scale (Stubs.predictor [Stubs.square_face] (Ok Stubs.scores))
           Stubs.frame).
Proof.
  destruct (variance_filter Stubs.small_predictor Stubs.small_frame
              Stubs.small_face small_face_uniform) as (Hvar & Hfilter & _).
  destruct (variance_filter (Stubs.predictor [Stubs.square_face] (Ok Stubs.scores))
              Stubs.frame Stubs.square_face square_face_uniform) as (_ & _ & Hdetect).
  split; [exact Hvar |]. split.
  - destruct (Hfilter [Stubs.small_face] []) as [Heq _]; [vm_compute; reflexivity |].
    exact Heq.
  - apply (Hdetect []); [unfold in_size_range; simpl; lia | reflexivity].
Defined.

(** C4 fails as stated: a raw candidate over a uniform region survives
    the filtering of the prediction pipeline and is the face of the
    response. *)
Lemma variance_pipeline_counterexample :
  face_cascade_detectMultiScale (Stubs.predictor [Stubs.square_face] (Ok Stubs.scores))
    (reduce_background_noise (Stubs.predictor [Stubs.square_face] (Ok Stubs.scores))
       Stubs.frame) = Ok [Stubs.square_face]
  /\ region_uniform Stubs.frame Stubs.square_face
  /\ In Stubs.square_face
        (detect_faces_multi_scale (Stubs.predictor [Stubs.square_face] (Ok Stubs.scores))
           Stubs.frame)
  /\ map bounding_box
         (emotions (predict_emotion (Stubs.predictor [Stubs.square_face] (Ok Stubs.scores))
                      Stubs.frame))
     = [Stubs.square_face].
Proof.
  split; [reflexivity |]. split; [exact square_face_uniform |]. split.
  - left. reflexivity.
  - vm_compute. reflexivity.
Qed.

Lemma faces_detected_counts_survivors_witness :
  predict_emotion_body
    (Stubs.predictor [Stubs.inside_face; Stubs.outside_face] (Ok Stubs.scores)) Stubs.frame
  = Ok (predict_emotion
          (Stubs.predictor [Stubs.inside_face; Stubs.outside_face] (Ok Stubs.scores))
          Stubs.frame)
  /\ success (predict_emotion
               (Stubs.predictor [Stubs.inside_face; Stubs.outside_face] (Ok Stubs.scores))
               Stubs.frame) = true
  /\ faces_detected (predict_emotion
                      (Stubs.predictor [Stubs.inside_face; Stubs.outside_face]
                         (Ok Stubs.scores))
                      Stubs.frame) = 2%nat
  /\ length (emotions (predict_emotion
                         (Stubs.predictor [Stubs.inside_face; Stubs.outside_face]
                            (Ok Stubs.scores))
                         Stubs.frame)) = 1%nat.
Proof.
  destruct (faces_detected_counts_survivors
              (Stubs.predictor [Stubs.inside_face; Stubs.outside_face] (Ok Stubs.scores))
              Stubs.frame) as [_ Hpartial].
  apply (Hpartial 0 0 40 40 60 60 40 40 [[[(128 # 255)%Q]]] Stubs.scores).
  - reflexivity.
  - vm_compute. reflexivity.
  - reflexivity.
  - discriminate.
  - simpl. lia.
  - vm_compute. reflexivity.
Defined.

Lemma face_ids_positions_witness :
  map face_id
    (emotions (predict_emotion
                 (Stubs.predictor [(0, 0, 30, 30); (30, 30, 30, 30)] (Ok Stubs.scores))
                 Stubs.frame))
  = [1%nat; 2%nat]
  /\ Forall (fun r =>
               (1 <= face_id r)%nat
               /\ nth_error
                    (detect_faces_multi_scale
                       (Stubs.predictor [Stubs.outside_face; Stubs.inside_face]
                          (Ok Stubs.scores))
                       Stubs.frame)
                    (face_id r - 1)
                  = Some (bounding_box r))
            (emotions (predict_emotion
                         (Stubs.predictor [Stubs.outside_face; Stubs.inside_face]
                            (Ok Stubs.scores))
                         Stubs.frame)).
Proof.
  destruct (face_ids_positions
              (Stubs.predictor [(0, 0, 30, 30); (30, 30, 30, 30)] (Ok Stubs.scores))
              Stubs.frame) as (_ & _ & _ & Hdense & _).
  destruct (face_ids_positions
              (Stubs.predictor [Stubs.outside_face; Stubs.inside_face] (Ok Stubs.scores))
              Stubs.frame) as (_ & _ & _ & _ & Hpositions).
  split; [rewrite Hdense; reflexivity | exact Hpositions].
Defined.

(** C6 fails as stated: the first of two surviving candidates fails
    preprocessing, and the one prediction of the response has face_id 2. *)
Lemma face_ids_dense_counterexample :
  map face_id
    (emotions (predict_emotion
                 (Stubs.predictor [Stubs.outside_face; Stubs.inside_face] (Ok Stubs.scores))
                 Stubs.frame))
  = [2%nat]
  /\ map face_id
       (emotions (predict_emotion
                    (Stubs.predictor [Stubs.outside_face; Stubs.inside_face]
                       (Ok Stubs.scores))
                    Stubs.frame))
     <> seq 1 (length
                 (emotions (predict_emotion
                              (Stubs.predictor [Stubs.outside_face; Stubs.inside_face]
                                 (Ok Stubs.scores))
                              Stubs.frame))).
Proof.
  split.
  - vm_compute. reflexivity.
  - vm_compute. discriminate.
Qed.

Lemma int64_safe_sample_first : int64_safe (2, 2, 44, 44).
Proof. unfold int64_safe. change (2 ^ 31) with 2147483648. lia. Qed.

Lemma int64_safe_sample_second : int64_safe (35, 35, 40, 40).
Proof. unfold int64_safe. change (2 ^ 31) with 2147483648. lia. Qed.

Lemma overlapping_faces_int64 : Forall int64_rect Stubs.overlapping_faces.
Proof.
  unfold int64_rect. change (2 ^ 63) with 9223372036854775808.
  repeat constructor; lia.
Qed.

Lemma non_max_suppression_f64_overlap_witness :
  non_max_suppression_f64 Stubs.overlapping_faces f64_0_3
  = [(2, 2, 44, 44); (35, 35, 40, 40)]
  /\ f64_le (overlap_ratio_f64 (2, 2, 44, 44) (35, 35, 40, 40)) f64_0_3 = true
  /\ overlap_ratio_f64 (2, 2, 44, 44) (35, 35, 40, 40)
     = f64_div (f64_of_int 121) (f64_of_int 3415).
Proof.
  split; [vm_compute; reflexivity |].
  destruct (non_max_suppression_f64_overlap Stubs.overlapping_faces f64_0_3 0 1)
    as [Hle Hexact].
  - exact overlapping_faces_int64.
  - discriminate.
  - vm_compute. lia.
  - vm_compute. lia.
  - split; [exact Hle |].
    exact (Hexact int64_safe_sample_first int64_safe_sample_second).
Defined.

(** C7 fails as stated: the areas 2^63 and 2^62 wrap around in 64 bits,
    the computed ratio is -0.5, and the output keeps two rectangles
    whose intersection-over-union is 1/2, above the threshold 0.3. *)
Lemma overlap_wraps_counterexample :
  Forall int64_rect Samples.huge_faces
  /\ non_max_suppression_f64 Samples.huge_faces f64_0_3
  = [(0, 0, 2 ^ 32, 2 ^ 30); (0, 0, 2 ^ 32, 2 ^ 31)]
  /\ overlap_counts (0, 0, 2 ^ 32, 2 ^ 30) (0, 0, 2 ^ 32, 2 ^ 31) = (2 ^ 62, 2 ^ 63)
  /\ ~ (inject_Z (2 ^ 62) / inject_Z (2 ^ 63) <= 3 # 10)%Q.
Proof.
  split.
  { unfold int64_rect, Samples.huge_faces.
    change (2 ^ 63) with 9223372036854775808.
    change (2 ^ 32) with 4294967296. change (2 ^ 31) with 2147483648.
    change (2 ^ 30) with 1073741824.
    repeat constructor; lia. }
  split; [vm_compute; reflexivity |]. split; [vm_compute; reflexivity |].
  vm_compute. intros H. apply H. reflexivity.
Qed.

Lemma non_max_suppression_idempotent_witness :
  Permutation
    (non_max_suppression
       (non_max_suppression Stubs.overlapping_faces (3 # 10)) (3 # 10))
    (non_max_suppression Stubs.overlapping_faces (3 # 10))
  /\ length (non_max_suppression
               (non_max_suppression Stubs.overlapping_faces (3 # 10)) (3 # 10))
     = length (non_max_suppression Stubs.overlapping_faces (3 # 10)).
Proof.
  exact (non_max_suppression_idempotent (LS := stub_libs_spec)
           Stubs.overlapping_faces (3 # 10)).
Defined.

Lemma predict_emotion_exception_caught_witness :
  length (emotions (predict_emotion (Stubs.picky_predictor [(0, 0, 40, 40)])
                      Stubs.split_frame)) = 1%nat
  /\ success (predict_emotion
               (Stubs.picky_predictor [(0, 0, 40, 40); (70, 0, 40, 40)])
               Stubs.split_frame) = false
  /\ message (predict_emotion
               (Stubs.picky_predictor [(0, 0, 40, 40); (70, 0, 40, 40)])
               Stubs.split_frame)
     = "Error during prediction: model unavailable"%string
  /\ faces_detected (predict_emotion
                      (Stubs.picky_predictor [(0, 0, 40, 40); (70, 0, 40, 40)])
                      Stubs.split_frame) = 0%nat
  /\ emotions (predict_emotion
                 (Stubs.picky_predictor [(0, 0, 40, 40); (70, 0, 40, 40)])
                 Stubs.split_frame) = [].
Proof.
  split; [vm_compute; reflexivity |].
  apply (predict_emotion_exception_caught
           (Stubs.picky_predictor [(0, 0, 40, 40); (70, 0, 40, 40)])
           Stubs.split_frame "model unavailable").
  left. vm_compute. reflexivity.
Defined.

Lemma filter_false_positives_error_bypass_witness :
  filter_false_positives (Stubs.predictor [] (Ok Stubs.scores))
    [Stubs.wide_face; Stubs.square_face; (5, 5, 20, 0)] Stubs.frame
  = [Stubs.wide_face; Stubs.square_face; (5, 5, 20, 0)].
Proof.
  apply (filter_false_positives_error_bypass (Stubs.predictor [] (Ok Stubs.scores))
           [Stubs.wide_face; Stubs.square_face; (5, 5, 20, 0)] Stubs.frame).
  right. exists (5, 5, 20, 0). split; [simpl; auto | reflexivity].
Defined.

(** ** Further properties of the detection stage *)

Lemma ForallOrdPairs_snoc {A : Type} (R : A -> A -> Prop) (l : list A) (a : A) :
  ForallOrdPairs R l -> Forall (fun b => R b a) l -> ForallOrdPairs R (l ++ [a]).
Proof.
  induction 1 as [| b l Hb _ IH]; intros Hall; simpl.
  - repeat constructor.
  - inversion Hall; subst. constructor; [| auto].
    apply Forall_app. split; [exact Hb | repeat constructor; assumption].
Qed.

Lemma Subseq_ForallOrdPairs {A : Type} (R : A -> A -> Prop) (l1 l2 : list A) :
  Subseq l1 l2 -> ForallOrdPairs R l2 -> ForallOrdPairs R l1.
Proof.
  induction 1 as [| x l1 l2 Hs IH | x l1 l2 Hs IH]; intros Hpairs.
  - constructor.
  - inversion Hpairs; subst. auto.
  - inversion Hpairs; subst. constructor; [| auto].
    eapply Subseq_Forall; eassumption.
Qed.

Lemma firstn_Subseq {A : Type} (n : nat) (l : list A) : Subseq (firstn n l) l.
Proof.
  revert n. induction l as [| a l IH]; intros [| n]; simpl.
  - constructor.
  - constructor.
  - apply Subseq_nil_l.
  - apply Subseq_take, IH.
Qed.

Section DetectionMore.

Context {L : Libs}.

Lemma is_duplicate_near (x y w h : Z) (filtered_faces : list Rect) :
  is_duplicate x y w h filtered_faces = false ->
  Forall (fun kept => near kept (x, y, w, h) = false) filtered_faces.
Proof.
  unfold is_duplicate. induction filtered_faces as [| [[[fx fy] fw] fh] rest IH]; simpl.
  - constructor.
  - intros Hdup. apply orb_false_iff in Hdup. destruct Hdup as [Hhead Hrest].
    constructor; [exact Hhead | auto].
Qed.

Lemma size_and_duplicate_loop_apart (faces filtered_faces : list Rect) :
  ForallOrdPairs (fun kept later => near kept later = false) filtered_faces ->
  ForallOrdPairs (fun kept later => near kept later = false)
    (size_and_duplicate_loop faces filtered_faces).
Proof.
  revert filtered_faces.
  induction faces as [| [[[x y] w] h] rest IH]; intros acc Hacc; simpl.
  - exact Hacc.
  - destruct ((30 <=? w) && (w <=? 300) && (30 <=? h) && (h <=? 300)); [| auto].
    destruct (is_duplicate x y w h acc) eqn:Hdup; simpl; [auto |].
    apply IH. apply ForallOrdPairs_snoc; [exact Hacc |].
    apply is_duplicate_near. exact Hdup.
Qed.

(** X1.  Of any two candidates returned by [detect_faces_multi_scale],
    the later one is not near the earlier one: their corners differ by
    at least half the later one's width horizontally or half its height
    vertically. *)
Theorem detect_no_near_duplicates (self : EmotionPredictor) (image : Image) :
  ForallOrdPairs (fun kept later => near kept later = false)
    (detect_faces_multi_scale self image).
Proof.
  unfold detect_faces_multi_scale.
  destruct (face_cascade_detectMultiScale self (reduce_background_noise self image))
    as [faces | e]; [| constructor].
  destruct (0 <? length faces)%nat; [| constructor].
  eapply Subseq_ForallOrdPairs; [apply firstn_Subseq |].
  apply size_and_duplicate_loop_apart. constructor.
Qed.

Lemma size_and_duplicate_loop_none (faces filtered_faces : list Rect) :
  Forall (fun f => ~ in_size_range f) faces ->
  size_and_duplicate_loop faces filtered_faces = filtered_faces.
Proof.
  induction 1 as [| [[[x y] w] h] rest Hout _ IH]; simpl; [reflexivity |].
  destruct ((30 <=? w) && (w <=? 300) && (30 <=? h) && (h <=? 300)) eqn:Hsize;
    [| exact IH].
  apply size_gate_spec in Hsize. exfalso. apply Hout. exact Hsize.
Qed.

(** X2.  When the cascade raises, or returns only candidates outside the
    size gate 30..300, [predict_emotion] answers as for a frame without
    faces: success = false with the message "No face detected", not the
    message of an error. *)
Theorem detector_failure_is_no_face (self : EmotionPredictor) (image : Image) :
  (exists e, face_cascade_detectMultiScale self (reduce_background_noise self image)
             = Raise e)
  \/ (exists faces,
        face_cascade_detectMultiScale self (reduce_background_noise self image) = Ok faces
        /\ Forall (fun f => ~ in_size_range f) faces) ->
  predict_emotion self image = no_face_response
  /\ message (predict_emotion self image) = "No face detected"%string.
Proof.
  intros Hfail.
  assert (Hnone : detect_faces_multi_scale self image = []).
  { unfold detect_faces_multi_scale.
    destruct Hfail as [[e ->] | (faces & -> & Hout)]; [reflexivity |].
    rewrite (size_and_duplicate_loop_none faces [] Hout).
    destruct (0 <? length faces)%nat; reflexivity. }
  unfold predict_emotion, predict_emotion_body. rewrite Hnone. split; reflexivity.
Qed.

End DetectionMore.

(** ** Further properties of the orchestrator *)

Lemma max_from_ge (l : list Q) (best : Q) :
  (best <= max_from best l)%Q /\ Forall (fun q => (q <= max_from best l)%Q) l.
Proof.
  revert best. induction l as [| v rest IH]; intros best; simpl.
  - split; [apply Qle_refl | constructor].
  - destruct (Qlt_le_dec best v) as [Hlt | Hle].
    + destruct (IH v) as [Hv Hrest]. split.
      * eapply Qle_trans; [apply Qlt_le_weak; exact Hlt | exact Hv].
      * constructor; assumption.
    + destruct (IH best) as [Hbest Hrest]. split; [exact Hbest |].
      constructor; [| exact Hrest].
      eapply Qle_trans; eassumption.
Qed.

Lemma argmax_from_nth (l pre : list Q) (best_i : nat) (best : Q) :
  (best_i < length pre)%nat ->
  nth best_i pre 0%Q = best ->
  nth (argmax_from (length pre) best_i best l) (pre ++ l) 0%Q = max_from best l.
Proof.
  revert pre best_i best.
  induction l as [| v rest IH]; intros pre best_i best Hlt Hnth; simpl.
  - rewrite app_nil_r. exact Hnth.
  - replace (pre ++ v :: rest) with ((pre ++ [v]) ++ rest)
      by (rewrite <- app_assoc; reflexivity).
    replace (S (length pre)) with (length (pre ++ [v]))
      by (rewrite length_app; simpl; lia).
    destruct (Qlt_le_dec best v).
    + apply IH.
      * rewrite length_app. simpl. lia.
      * rewrite app_nth2 by lia. rewrite Nat.sub_diag. reflexivity.
    + apply IH.
      * rewrite length_app. simpl. lia.
      * rewrite app_nth1 by exact Hlt. exact Hnth.
Qed.

(** [np.argmax] points at the value of [np.max], which bounds every
    value. *)
Lemma np_argmax_max (prediction : list Q) (k : nat) (m : Q) :
  np_argmax prediction = Ok k ->
  np_max prediction = Ok m ->
  (k < length prediction)%nat
  /\ nth k prediction 0%Q = m
  /\ Forall (fun q => (q <= m)%Q) prediction.
Proof.
  destruct prediction as [| v rest]; [discriminate |]. simpl.
  intros [= <-] [= <-]. repeat split.
  - pose proof (argmax_from_bound rest 1 0 v). lia.
  - apply (argmax_from_nth rest [v] 0 v); [simpl; lia | reflexivity].
  - destruct (max_from_ge rest v) as [Hv Hrest]. constructor; assumption.
Qed.

Lemma emotion_labels_names (k : nat) (label : string) :
  emotion_labels k = Ok label -> nth_error label_names k = Some label.
Proof.
  destruct k as [| [| [| k]]]; simpl; intros [= <-]; reflexivity.
Qed.

Lemma all_predictions_from_spec (prediction : list Q) (j : nat)
  (all_p : list (string * Q)) :
  all_predictions_from j prediction = Ok all_p ->
  map snd all_p = prediction
  /\ map fst all_p = firstn (length prediction) (skipn j label_names).
Proof.
  revert j all_p. induction prediction as [| p rest IH]; intros j all_p; simpl.
  - intros [= <-]. split; reflexivity.
  - destruct (emotion_labels j) as [label |] eqn:Hlabel; [| discriminate]. simpl.
    destruct (all_predictions_from (S j) rest) as [others |] eqn:Hothers;
      [| discriminate]. simpl.
    intros [= <-]. destruct (IH _ _ Hothers) as [Hsnd Hfst]. simpl. split.
    + f_equal. exact Hsnd.
    + rewrite Hfst.
      destruct j as [| [| [| j]]]; simpl in Hlabel; try discriminate;
        injection Hlabel as <-; reflexivity.
Qed.

Lemma all_predictions_from_length (rest : list Q) (p : Q) (j : nat)
  (all_p : list (string * Q)) :
  all_predictions_from j (p :: rest) = Ok all_p -> (j + length (p :: rest) <= 3)%nat.
Proof.
  revert p j all_p. induction rest as [| q rest IH]; intros p j all_p.
  - simpl. destruct j as [| [| [| j]]]; simpl; try discriminate; intros _; lia.
  - change (all_predictions_from j (p :: q :: rest))
      with (label <- emotion_labels j ;;
            others <- all_predictions_from (S j) (q :: rest) ;;
            Ok ((label, p) :: others)).
    destruct (emotion_labels j) as [label |]; [| discriminate]. cbn [bind].
    destruct (all_predictions_from (S j) (q :: rest)) as [others |] eqn:Hothers;
      [| discriminate].
    intros _. apply IH in Hothers. simpl in *. lia.
Qed.

Section OrchestratorMore.

Context {L : Libs}.

(** What stands behind a prediction. *)
Lemma predict_face_inv (self : EmotionPredictor) (image : Image) (i : nat)
  (f : Rect) (r : EmotionResult) :
  predict_face self image i f = Ok (Some r) ->
  exists prediction k,
    np_argmax prediction = Ok k
    /\ np_max prediction = Ok (confidence r)
    /\ emotion_labels k = Ok (emotion r)
    /\ all_predictions_from 0 prediction = Ok (all_predictions r)
    /\ bounding_box r = f.
Proof.
  destruct f as [[[x y] w] h]. unfold predict_face.
  destruct (preprocess_face_for_model (crop image x y w h)); [| discriminate].
  destruct (model_predict self t) as [prediction |]; [| discriminate]. simpl.
  destruct (np_argmax prediction) as [k |] eqn:Hk; [| discriminate]. simpl.
  destruct (np_max prediction) as [m |] eqn:Hm; [| discriminate]. simpl.
  destruct (emotion_labels k) as [label |] eqn:Hlabel; [| discriminate]. simpl.
  destruct (all_predictions_from 0 prediction) as [all_p |] eqn:Hall;
    [| discriminate]. simpl.
  intros [= <-]. simpl. exists prediction, k. repeat split; assumption.
Qed.

(** Every result of the loop was in [results] or is the prediction of a
    face. *)
Lemma predict_loop_results (self : EmotionPredictor) (image : Image)
  (P : EmotionResult -> Prop) (faces : list Rect) (i : nat)
  (results out : list EmotionResult) :
  (forall j f r, predict_face self image j f = Ok (Some r) -> P r) ->
  Forall P results ->
  predict_loop self image i faces results = Ok out ->
  Forall P out.
Proof.
  intros Hface. revert i results.
  induction faces as [| f rest IH]; intros i results Hresults; simpl.
  - intros [= <-]. exact Hresults.
  - destruct (predict_face self image i f) as [[r |] |] eqn:Hf; simpl;
      [| | discriminate].
    + apply IH. apply Forall_app. split; [exact Hresults |].
      repeat constructor. eapply Hface. exact Hf.
    + apply IH. exact Hresults.
Qed.

Lemma predict_emotion_results (self : EmotionPredictor) (image : Image)
  (P : EmotionResult -> Prop) :
  (forall j f r, predict_face self image j f = Ok (Some r) -> P r) ->
  Forall P (emotions (predict_emotion self image)).
Proof.
  intros Hface. unfold predict_emotion.
  destruct (predict_emotion_cases self image)
    as [[_ Hbody] | [(e & _ & _ & Hbody) | (results & _ & Hloop & Hbody)]];
    rewrite Hbody; simpl; try constructor.
  eapply predict_loop_results; [exact Hface | constructor | exact Hloop].
Qed.

Lemma predict_loop_boxes (self : EmotionPredictor) (image : Image)
  (faces : list Rect) (i : nat) (results out : list EmotionResult) :
  predict_loop self image i faces results = Ok out ->
  exists added,
    out = results ++ added /\ Subseq (map bounding_box added) faces.
Proof.
  revert i results.
  induction faces as [| f rest IH]; intros i results; simpl.
  - intros [= <-]. exists []. rewrite app_nil_r. split; constructor.
  - destruct (predict_face self image i f) as [[r |] |] eqn:Hface; simpl;
      [| | discriminate].
    + intros Hloop. destruct (IH _ _ Hloop) as (added & -> & Hsub).
      exists (r :: added). rewrite <- app_assoc. split; [reflexivity |].
      destruct (predict_face_inv _ _ _ _ _ Hface) as (_ & _ & _ & _ & _ & _ & Hbox).
      simpl. rewrite Hbox. apply Subseq_take. exact Hsub.
    + intros Hloop. destruct (IH _ _ Hloop) as (added & -> & Hsub).
      exists added. split; [reflexivity |]. apply Subseq_skip. exact Hsub.
Qed.

(** X3.  In every response faces_detected is at most 3 and there are at
    most faces_detected predictions; a response with success = false has
    faces_detected = 0 and no prediction, and one with success = true
    has at least one face. *)
Theorem response_counts (self : EmotionPredictor) (image : Image) :
  let response := predict_emotion self image in
  (faces_detected response <= 3)%nat
  /\ (length (emotions response) <= faces_detected response)%nat
  /\ (success response = false ->
      faces_detected response = 0%nat /\ emotions response = [])
  /\ (success response = true -> (1 <= faces_detected response)%nat).
Proof.
  intros response. unfold response, predict_emotion.
  destruct (detect_faces_cap self image) as [Hcap _].
  destruct (predict_emotion_cases self image)
    as [[_ Hbody] | [(e & _ & _ & Hbody) | (results & Hne & Hloop & Hbody)]];
    rewrite Hbody; simpl.
  - repeat split; try lia; discriminate.
  - repeat split; try lia; discriminate.
  - destruct (predict_loop_spec _ _ _ _ _ _ Hloop) as (added & -> & Hsub).
    apply Subseq_length in Hsub. rewrite length_map, length_seq in Hsub.
    simpl. repeat split; try exact Hcap; try exact Hsub; try discriminate.
    intros _. destruct (detect_faces_multi_scale self image); [congruence | simpl; lia].
Qed.

(** X4.  The bounding boxes of the predictions are surviving candidates,
    in the order of the filtered candidate list, each at most once per
    place in that list. *)
Theorem prediction_boxes_in_order (self : EmotionPredictor) (image : Image) :
  Subseq (map bounding_box (emotions (predict_emotion self image)))
         (detect_faces_multi_scale self image).
Proof.
  unfold predict_emotion.
  destruct (predict_emotion_cases self image)
    as [[_ Hbody] | [(e & _ & _ & Hbody) | (results & _ & Hloop & Hbody)]];
    rewrite Hbody; simpl; try apply Subseq_nil_l.
  destruct (predict_loop_boxes _ _ _ _ _ _ Hloop) as (added & -> & Hsub).
  exact Hsub.
Qed.

(** X5.  In every prediction the confidence is the largest of the scores
    of [all_predictions] and is the score listed there under the
    predicted emotion. *)
Theorem confidence_is_largest_score (self : EmotionPredictor) (image : Image) :
  Forall (fun r =>
            In (emotion r, confidence r) (all_predictions r)
            /\ Forall (fun lp => (snd lp <= confidence r)%Q) (all_predictions r))
         (emotions (predict_emotion self image)).
Proof.
  apply predict_emotion_results. intros j f r Hface.
  destruct (predict_face_inv _ _ _ _ _ Hface)
    as (prediction & k & Hk & Hm & Hlabel & Hall & _).
  destruct (np_argmax_max _ _ _ Hk Hm) as (Hlt & Hnth & Hbound).
  destruct (all_predictions_from_spec _ _ _ Hall) as [Hsnd Hfst].
  split.
  - assert (Hpair : nth_error (all_predictions r) k = Some (emotion r, confidence r)).
    { assert (Hlen : length (all_predictions r) = length prediction)
        by (rewrite <- Hsnd, length_map; reflexivity).
      destruct (nth_error (all_predictions r) k) as [[label q] |] eqn:Hk';
        [| apply nth_error_None in Hk'; lia].
      pose proof (map_nth_error snd _ _ Hk') as Hq.
      pose proof (map_nth_error fst _ _ Hk') as Hl.
      rewrite Hsnd in Hq. rewrite Hfst in Hl. simpl in Hq, Hl.
      rewrite (nth_error_nth' prediction 0%Q Hlt) in Hq.
      injection Hq as Hq. rewrite Hnth in Hq. subst q.
      rewrite nth_error_firstn in Hl.
      apply emotion_labels_names in Hlabel.
      destruct (k <? length prediction)%nat eqn:Hltb;
        [| apply Nat.ltb_ge in Hltb; lia].
      rewrite Hlabel in Hl. injection Hl as <-. reflexivity. }
    eapply nth_error_In. exact Hpair.
  - rewrite <- Hsnd in Hbound. rewrite Forall_map in Hbound. exact Hbound.
Qed.

(** X6.  In every prediction [all_predictions] lists one to three
    scores under the labels happy, sad, neutral, in that order. *)
Theorem all_predictions_labels (self : EmotionPredictor) (image : Image) :
  Forall (fun r =>
            (1 <= length (all_predictions r) <= 3)%nat
            /\ map fst (all_predictions r)
               = firstn (length (all_predictions r)) label_names)
         (emotions (predict_emotion self image)).
Proof.
  apply predict_emotion_results. intros j f r Hface.
  destruct (predict_face_inv _ _ _ _ _ Hface)
    as (prediction & k & Hk & _ & _ & Hall & _).
  destruct (all_predictions_from_spec _ _ _ Hall) as [Hsnd Hfst].
  assert (Hlen : length (all_predictions r) = length prediction)
    by (rewrite <- Hsnd, length_map; reflexivity).
  rewrite Hlen. split.
  - destruct prediction as [| p rest]; [discriminate |].
    apply all_predictions_from_length in Hall. simpl in *. lia.
  - exact Hfst.
Qed.

Lemma all_predictions_from_too_long (prediction : list Q) (j : nat) :
  (3 < j + length prediction)%nat ->
  prediction <> [] ->
  exists e, all_predictions_from j prediction = Raise e.
Proof.
  intros Hlong Hne.
  destruct (all_predictions_from j prediction) as [all_p |] eqn:Hall;
    [| eexists; reflexivity].
  destruct prediction as [| p rest]; [congruence |].
  apply all_predictions_from_length in Hall. lia.
Qed.

Lemma predict_loop_raise_any (self : EmotionPredictor) (image : Image)
  (faces : list Rect) (i : nat) (results : list EmotionResult) :
  (forall j x y w h t,
     preprocess_face_for_model (crop image x y w h) = Some t ->
     exists e, predict_face self image j (x, y, w, h) = Raise e) ->
  (exists f, In f faces
             /\ preprocess_face_for_model
                  (let '(x, y, w, h) := f in crop image x y w h) <> None) ->
  exists e, predict_loop self image i faces results = Raise e.
Proof.
  intros Hraise. revert i results.
  induction faces as [| g rest IH]; intros i results (f & Hin & Hpre).
  - destruct Hin.
  - simpl. destruct g as [[[x y] w] h].
    destruct (preprocess_face_for_model (crop image x y w h)) as [t |] eqn:Hg.
    + destruct (Hraise i x y w h t Hg) as [e ->]. exists e. reflexivity.
    + rewrite (predict_face_skipped _ _ _ _ _ _ _ Hg). simpl.
      apply IH. exists f. split; [| exact Hpre].
      destruct Hin as [<- | Hin]; [| exact Hin].
      simpl in Hpre. congruence.
Qed.

(** X7.  With a model that gives more than three scores (or none), as
    soon as one surviving candidate is preprocessed the whole request
    fails: success = false, faces_detected = 0 and no prediction, since
    only three classes have a label. *)
Theorem unlabelled_classes_fail_request (self : EmotionPredictor) (image : Image) :
  (forall t prediction,
     model_predict self t = Ok prediction ->
     prediction = [] \/ (3 < length prediction)%nat) ->
  (exists f, In f (detect_faces_multi_scale self image)
             /\ preprocess_face_for_model
                  (let '(x, y, w, h) := f in crop image x y w h) <> None) ->
  success (predict_emotion self image) = false
  /\ faces_detected (predict_emotion self image) = 0%nat
  /\ emotions (predict_emotion self image) = [].
Proof.
  intros Hmodel Hface.
  assert (Hloop : exists e,
             predict_loop self image 0 (detect_faces_multi_scale self image) []
             = Raise e).
  { apply predict_loop_raise_any; [| exact Hface].
    intros j x y w h t Hpre. unfold predict_face. rewrite Hpre.
    destruct (model_predict self t) as [prediction | e] eqn:Ht;
      [| exists e; reflexivity].
    simpl. destruct (Hmodel _ _ Ht) as [-> | Hlong].
    - eexists. reflexivity.
    - destruct prediction as [| p rest]; [simpl in Hlong; lia |].
      cbn [np_argmax np_max bind].
      destruct (emotion_labels (argmax_from 1 0 p rest)) as [label | e];
        [| exists e; reflexivity].
      cbn [bind].
      destruct (all_predictions_from_too_long (p :: rest) 0) as [e ->];
        [simpl in *; lia | discriminate |].
      exists e. reflexivity. }
  destruct Hloop as [e Hloop]. unfold predict_emotion.
  destruct (predict_emotion_cases self image)
    as [[Hnone _] | [(e' & _ & _ & Hbody) | (results & _ & Hloop' & _)]].
  - destruct Hface as (f & Hin & _). rewrite Hnone in Hin. destruct Hin.
  - rewrite Hbody. repeat split.
  - congruence.
Qed.

(** X8.  Scaling keeps the rows and columns of a gray face, gives each
    pixel one channel, and brings pixel values of 0..255 into [0, 1]. *)
Theorem normalize_unit_range (rows : list (list Z)) :
  Forall (Forall (fun v => 0 <= v <= 255)) rows ->
  map (@length _) (normalize (Gray rows)) = map (@length _) rows
  /\ Forall (Forall (fun pixel => length pixel = 1%nat)) (normalize (Gray rows))
  /\ Forall (Forall (Forall (fun q => (0 <= q <= 1)%Q))) (normalize (Gray rows)).
Proof.
  intros Hrange. simpl. split; [| split].
  - rewrite map_map. apply map_ext. intros row. apply length_map.
  - apply Forall_map. apply Forall_forall. intros row _.
    apply Forall_map. apply Forall_forall. intros v _. reflexivity.
  - apply Forall_map. eapply Forall_impl; [| exact Hrange].
    intros row Hrow. apply Forall_map. eapply Forall_impl; [| exact Hrow].
    intros v [Hlo Hhi]. repeat constructor.
    + unfold Qle. simpl. lia.
    + unfold Qle. simpl. lia.
Qed.

End OrchestratorMore.

(** ** Further properties of the suppression and of the filter *)

Lemma Subseq_Permutation {A : Type} (l1 l2 : list A) :
  Subseq l1 l2 -> exists dropped, Permutation l2 (l1 ++ dropped).
Proof.
  induction 1 as [| x l1 l2 _ [dropped IH] | x l1 l2 _ [dropped IH]].
  - exists []. constructor.
  - exists (x :: dropped).
    etransitivity; [apply perm_skip, IH | apply Permutation_middle].
  - exists dropped. simpl. apply perm_skip, IH.
Qed.

Lemma StronglySorted_snoc {A : Type} (R : A -> A -> Prop) (l : list A) (a : A) :
  StronglySorted R l -> Forall (fun b => R b a) l -> StronglySorted R (l ++ [a]).
Proof.
  induction 1 as [| b l _ IH Hb]; intros Hall; simpl.
  - repeat constructor.
  - inversion Hall; subst. constructor; [auto |].
    apply Forall_app. split; [exact Hb | repeat constructor; assumption].
Qed.

Lemma StronglySorted_rev {A : Type} (R : A -> A -> Prop) (l : list A) :
  StronglySorted R l -> StronglySorted (fun a b => R b a) (rev l).
Proof.
  induction 1 as [| a l _ IH Ha]; simpl.
  - constructor.
  - apply StronglySorted_snoc; [exact IH |].
    apply Forall_rev. exact Ha.
Qed.

Lemma StronglySorted_map {A B : Type} (f : A -> B) (R : B -> B -> Prop) (l : list A) :
  StronglySorted (fun a b => R (f a) (f b)) l -> StronglySorted R (map f l).
Proof.
  induction 1 as [| a l _ IH Ha]; simpl; constructor; [exact IH |].
  apply Forall_map. exact Ha.
Qed.


Lemma rect_area_face_at (faces : list Rect) (i : nat) :
  rect_area (face_at faces i) = nth i (map rect_area faces) 0.
Proof.
  unfold face_at. change 0 with (rect_area (0, 0, 0, 0)) at 5.
  symmetry. apply map_nth.
Qed.

Section SuppressionMore.

Context {L : Libs}.

Lemma nms_loop_head (faces : list Rect) (overlap_threshold : Q)
  (current : nat) (other_indices : list nat) :
  exists rest,
    nms_loop faces overlap_threshold (current :: other_indices) = current :: rest.
Proof. simp nms_loop. eexists. reflexivity. Qed.

Context {LS : LibsSpec L}.

(** X9.  [non_max_suppression] only selects: its output together with
    the rectangles it suppressed is a rearrangement of its input, so
    every output rectangle is an input rectangle, no rectangle comes out
    more often than it went in, and a non-empty input gives a non-empty
    output. *)
Theorem non_max_suppression_selects (faces : list Rect) (overlap_threshold : Q) :
  (exists suppressed,
     Permutation faces (non_max_suppression faces overlap_threshold ++ suppressed))
  /\ (length (non_max_suppression faces overlap_threshold) <= length faces)%nat
  /\ (faces <> [] -> non_max_suppression faces overlap_threshold <> []).
Proof.
  unfold non_max_suppression. destruct faces as [| g rest].
  { split; [exists []; constructor | split; [simpl; lia | congruence]]. }
  set (faces := g :: rest). cbv zeta.
  set (indices := rev (np_argsort (map rect_area faces))).
  destruct (argsort_indices (map rect_area faces)) as [_ Hperm].
  fold indices in Hperm. rewrite length_map in Hperm.
  destruct (nms_loop_spec faces overlap_threshold indices) as [Hsub _].
  assert (Hselect : exists suppressed,
             Permutation faces
               (map (face_at faces) (nms_loop faces overlap_threshold indices)
                ++ suppressed)).
  { destruct (Subseq_Permutation _ _ Hsub) as [dropped Hdropped].
    exists (map (face_at faces) dropped). rewrite <- map_app.
    rewrite <- (map_nth_seq (0, 0, 0, 0) faces) at 1.
    apply Permutation_map. etransitivity; [symmetry; exact Hperm | exact Hdropped]. }
  split; [exact Hselect |]. split.
  - destruct Hselect as [suppressed Hselect].
    apply Permutation_length in Hselect. rewrite length_app in Hselect. lia.
  - intros _. destruct indices as [| c others] eqn:Hindices.
    + apply Permutation_length in Hperm. simpl in Hperm. lia.
    + destruct (nms_loop_head faces overlap_threshold c others) as [kept ->].
      discriminate.
Qed.

(** An index of the list is kept, or a kept index masks it. *)
Lemma nms_loop_f64_complete (faces : list Rect) (overlap_threshold : float64)
  (indices : list nat) (i : nat) :
  In i indices ->
  In i (nms_loop_f64 faces overlap_threshold indices)
  \/ exists c, In c (nms_loop_f64 faces overlap_threshold indices)
               /\ f64_le (overlap_ratio_f64 (face_at faces c) (face_at faces i))
                         overlap_threshold = false.
Proof.
  funelim (nms_loop_f64 faces overlap_threshold indices); intros Hin.
  - destruct Hin.
  - simp nms_loop_f64. destruct Hin as [<- | Hin]; [left; left; reflexivity |].
    destruct (f64_le (overlap_ratio_f64 (face_at faces current) (face_at faces i))
                     overlap_threshold) eqn:Hmask.
    + destruct (H i) as [Hkept | (c & Hc & Hmasked)].
      * apply filter_In. split; assumption.
      * left. right. exact Hkept.
      * right. exists c. split; [right; exact Hc | exact Hmasked].
    + right. exists current. split; [left; reflexivity | exact Hmask].
Qed.

Lemma nms_loop_f64_head (faces : list Rect) (overlap_threshold : float64)
  (current : nat) (other_indices : list nat) :
  exists rest,
    nms_loop_f64 faces overlap_threshold (current :: other_indices) = current :: rest.
Proof. simp nms_loop_f64. eexists. reflexivity. Qed.

Lemma non_max_suppression_f64_In (faces : list Rect) (overlap_threshold : float64)
  (f : Rect) :
  In f (non_max_suppression_f64 faces overlap_threshold) -> In f faces.
Proof.
  unfold non_max_suppression_f64. destruct faces as [| g rest]; [trivial |].
  set (faces := g :: rest). intros Hin.
  apply in_map_iff in Hin. destruct Hin as (i & <- & Hi).
  destruct (nms_loop_f64_spec faces overlap_threshold
              (rev (np_argsort (map area_int64 faces)))) as [Hsub _].
  eapply Subseq_In in Hi; [| exact Hsub].
  destruct (argsort_indices (map area_int64 faces)) as [_ Hperm].
  eapply Permutation_in in Hi; [| exact Hperm].
  apply in_seq in Hi. rewrite length_map in Hi.
  apply nth_In. destruct Hi as [_ Hi]. exact Hi.
Qed.

(** X10.  For candidates with 64-bit integer coordinates,
    [non_max_suppression] suppresses only what its mask rejects: an
    input rectangle that is not in the output has, with some output
    rectangle, a computed overlap ratio (the binary64 quotient of the
    64-bit intersection and union) for which the comparison with the
    threshold is false. *)
Theorem non_max_suppression_f64_complete (faces : list Rect)
  (overlap_threshold : float64) (f : Rect) :
  Forall int64_rect faces ->
  In f faces ->
  In f (non_max_suppression_f64 faces overlap_threshold)
  \/ exists kept, In kept (non_max_suppression_f64 faces overlap_threshold)
                  /\ f64_le (overlap_ratio_f64 kept f) overlap_threshold = false.
Proof.
  intros _ Hin. unfold non_max_suppression_f64.
  destruct faces as [| g rest]; [destruct Hin |].
  set (faces := g :: rest) in *. cbv zeta.
  set (indices := rev (np_argsort (map area_int64 faces))).
  destruct (argsort_indices (map area_int64 faces)) as [_ Hperm].
  fold indices in Hperm. rewrite length_map in Hperm.
  destruct (In_nth _ _ (0, 0, 0, 0) Hin) as (i & Hi & Hnth).
  assert (Hidx : In i indices).
  { eapply Permutation_in; [symmetry; exact Hperm |]. apply in_seq.
    split; [apply Nat.le_0_l | exact Hi]. }
  destruct (nms_loop_f64_complete faces overlap_threshold indices i Hidx)
    as [Hkept | (c & Hc & Hmasked)].
  - left. rewrite <- Hnth. apply (in_map (face_at faces)). exact Hkept.
  - right. exists (face_at faces c). split.
    + apply (in_map (face_at faces)). exact Hc.
    + rewrite <- Hnth. exact Hmasked.
Qed.

Context {LO : LibsSorted L}.

Lemma area_int64_face_at (faces : list Rect) (i : nat) :
  area_int64 (face_at faces i) = nth i (map area_int64 faces) 0.
Proof.
  unfold face_at. change 0 with (area_int64 (0, 0, 0, 0)) at 5.
  symmetry. apply map_nth.
Qed.

Lemma argsort_descending_int64 (faces : list Rect) :
  StronglySorted (fun i j => area_int64 (face_at faces j) <= area_int64 (face_at faces i))
    (rev (np_argsort (map area_int64 faces))).
Proof.
  pose proof (StronglySorted_rev _ _ (np_argsort_sorted (map area_int64 faces))) as Hrev.
  induction Hrev as [| i l _ IH Hi]; constructor; [exact IH |].
  eapply Forall_impl; [| exact Hi].
  intros j Hj. rewrite !area_int64_face_at. exact Hj.
Qed.

Lemma StronglySorted_In_impl {A : Type} (R S : A -> A -> Prop) (l : list A) :
  (forall a b, In a l -> In b l -> R a b -> S a b) ->
  StronglySorted R l -> StronglySorted S l.
Proof.
  intros Himpl Hsorted. induction Hsorted as [| a l _ IH Ha].
  - constructor.
  - constructor.
    + apply IH. intros b c Hb Hc. apply Himpl; right; assumption.
    + apply Forall_forall. intros b Hb. rewrite Forall_forall in Ha.
      apply Himpl; [left; reflexivity | right; exact Hb | apply Ha; exact Hb].
Qed.

(** X11.  For candidates with 64-bit integer coordinates whose areas
    fit in 64 bits, the output of [non_max_suppression] is in order of
    non-increasing area, and for a non-empty input its first rectangle
    has the largest area of the input. *)
Theorem non_max_suppression_f64_largest_first (faces : list Rect)
  (overlap_threshold : float64) :
  Forall int64_rect faces ->
  Forall (fun f => - 2 ^ 63 <= rect_area f < 2 ^ 63) faces ->
  StronglySorted (fun a b => rect_area b <= rect_area a)
    (non_max_suppression_f64 faces overlap_threshold)
  /\ (faces <> [] ->
      exists first rest,
        non_max_suppression_f64 faces overlap_threshold = first :: rest
        /\ Forall (fun f => rect_area f <= rect_area first) faces).
Proof.
  intros _ Hrange.
  assert (Harea : forall f, In f faces -> area_int64 f = rect_area f).
  { intros f Hin. rewrite Forall_forall in Hrange.
    unfold area_int64. apply wrap64_small. apply (Hrange f Hin). }
  assert (Hsorted64 :
    StronglySorted (fun a b => area_int64 b <= area_int64 a)
      (non_max_suppression_f64 faces overlap_threshold)).
  { unfold non_max_suppression_f64. destruct faces as [| g others]; [constructor |].
    apply StronglySorted_map.
    eapply Subseq_StronglySorted; [apply nms_loop_f64_spec |].
    apply argsort_descending_int64. }
  split.
  - eapply StronglySorted_In_impl; [| exact Hsorted64].
    intros a b Ha Hb Hle.
    apply non_max_suppression_f64_In in Ha. apply non_max_suppression_f64_In in Hb.
    rewrite <- (Harea a Ha), <- (Harea b Hb). exact Hle.
  - intros Hne. destruct faces as [| g others]; [congruence |].
    set (faces := g :: others) in *.
    unfold non_max_suppression_f64. fold faces. cbv zeta.
    pose proof (argsort_descending_int64 faces) as Hsorted.
    destruct (argsort_indices (map area_int64 faces)) as [_ Hperm].
    rewrite length_map in Hperm.
    destruct (rev (np_argsort (map area_int64 faces))) as [| c rest] eqn:Hindices.
    { apply Permutation_length in Hperm. simpl in Hperm. lia. }
    destruct (nms_loop_f64_head faces overlap_threshold c rest) as [kept Hkept].
    exists (face_at faces c), (map (face_at faces) kept). split.
    { change (match faces with [] => [] | _ => map (face_at faces)
                (nms_loop_f64 faces overlap_threshold (c :: rest)) end
              = face_at faces c :: map (face_at faces) kept).
      unfold faces at 1. rewrite Hkept. reflexivity. }
    assert (Hc : In (face_at faces c) faces).
    { apply nth_In.
      assert (Hin : In c (seq 0 (length faces))).
      { eapply Permutation_in; [exact Hperm | left; reflexivity]. }
      apply in_seq in Hin. destruct Hin as [_ Hin]. exact Hin. }
    apply Forall_forall. intros f Hin.
    destruct (In_nth _ _ (0, 0, 0, 0) Hin) as (i & Hi & Hnth).
    assert (Hidx : In i (c :: rest)).
    { eapply Permutation_in; [symmetry; exact Hperm |]. apply in_seq.
      split; [apply Nat.le_0_l | exact Hi]. }
    rewrite <- (Harea f Hin), <- (Harea _ Hc). rewrite <- Hnth.
    inversion Hsorted as [| ? ? _ Hall]; subst.
    destruct Hidx as [<- | Hrest]; [apply Z.le_refl |].
    rewrite Forall_forall in Hall. apply (Hall i Hrest).
Qed.

End SuppressionMore.

Section FilterMore.

Context {L : Libs}.

Lemma passes_checks_true (self : EmotionPredictor) (image : Image) (x y w h : Z) :
  passes_checks self image (x, y, w, h) = Ok true ->
  h <> 0
  /\ (6 # 10 <= inject_Z w / inject_Z h)%Q
  /\ (inject_Z w / inject_Z h <= 14 # 10)%Q
  /\ fst (FACE_DETECTION_MIN_SIZE (config self)) <= w
  /\ fst (FACE_DETECTION_MIN_SIZE (config self)) <= h
  /\ (values (crop image x y w h) = []
      \/ (100 <= np_var (values (crop image x y w h)))%Q)
  /\ inside_frame image (x, y, w, h).
Proof.
  unfold passes_checks.
  destruct (h =? 0) eqn:Hh; [discriminate |]. simpl.
  destruct (Qle_bool (6 # 10) (inject_Z w / inject_Z h)) eqn:Hlow; [| discriminate].
  destruct (Qle_bool (inject_Z w / inject_Z h) (14 # 10)) eqn:Hhigh; [| discriminate].
  simpl.
  destruct (w <? _) eqn:Hw; [discriminate |].
  destruct (h <? _) eqn:Hmin; [discriminate |]. simpl.
  destruct ((0 <? size (crop image x y w h))
            && (if Qlt_le_dec (np_var (values (crop image x y w h))) 100
                then true else false)) eqn:Hvar; [discriminate |].
  destruct (x <? 0) eqn:Hx; [discriminate |].
  destruct (y <? 0) eqn:Hy; [discriminate |].
  destruct (shape1 image <? x + w) eqn:Hx2; [discriminate |].
  destruct (shape0 image <? y + h) eqn:Hy2; [discriminate |].
  intros _.
  apply Z.eqb_neq in Hh. apply Qle_bool_iff in Hlow. apply Qle_bool_iff in Hhigh.
  apply Z.ltb_ge in Hw, Hmin, Hx, Hy, Hx2, Hy2.
  repeat split; try assumption.
  apply andb_false_iff in Hvar. destruct Hvar as [Hsize | Hvar].
  - left. apply Z.ltb_ge in Hsize. unfold size in Hsize.
    destruct (values (crop image x y w h)); [reflexivity | simpl in Hsize; lia].
  - right. destruct (Qlt_le_dec (np_var (values (crop image x y w h))) 100);
      [discriminate | assumption].
Qed.

Context {LS : LibsSpec L}.

(** X12.  With a positive configured minimum size and a frame of fewer
    than 2^31 rows and columns, when [filter_false_positives] ends
    without an internal error every rectangle it returns lies inside the
    frame, is at least the configured minimum size wide and high, and
    has a width to height ratio between 0.6 and 1.4. *)
Theorem filter_output_plausible (self : EmotionPredictor)
  (faces filtered_faces : list Rect) (image : Image) :
  0 < fst (FACE_DETECTION_MIN_SIZE (config self)) ->
  shape0 image < 2 ^ 31 ->
  shape1 image < 2 ^ 31 ->
  filter_false_positives_body self faces image = Ok filtered_faces ->
  Forall (fun f =>
            let '(x, y, w, h) := f in
            inside_frame image f
            /\ 0 < w /\ 0 < h
            /\ fst (FACE_DETECTION_MIN_SIZE (config self)) <= w
            /\ fst (FACE_DETECTION_MIN_SIZE (config self)) <= h
            /\ (6 # 10 <= inject_Z w / inject_Z h <= 14 # 10)%Q)
         filtered_faces.
Proof.
  intros Hmin _ _ Hbody. apply Forall_forall. intros [[[x y] w] h] Hin.
  destruct (filter_false_positives_sound self faces _ image _ Hbody Hin) as [_ Hpass].
  apply passes_checks_true in Hpass.
  destruct Hpass as (_ & Hlow & Hhigh & Hw & Hh & _ & Hinside).
  split; [exact Hinside |]. repeat split; try assumption; lia.
Qed.


(** X14.  [filter_false_positives] never adds a rectangle: with or
    without an internal error, what it returns are rectangles of its
    input, and no more of them than it was given. *)
Theorem filter_false_positives_selects (self : EmotionPredictor)
  (faces : list Rect) (image : Image) :
  (forall f, In f (filter_false_positives self faces image) -> In f faces)
  /\ (length (filter_false_positives self faces image) <= length faces)%nat.
Proof.
  unfold filter_false_positives.
  destruct (filter_false_positives_body self faces image) as [out | e] eqn:Hbody;
    [| split; [trivial | lia]].
  split.
  - intros f Hin.
    apply (filter_false_positives_sound self faces out image f Hbody Hin).
  - revert Hbody. unfold filter_false_positives_body.
    destruct faces as [| g rest]; [intros [= <-]; simpl; lia |].
    destruct (zero_height_dec (g :: rest)) as [Hzero | Hheights].
    { rewrite (checks_loop_raise self image _ [] Hzero). discriminate. }
    destruct (checks_loop_ok self image (g :: rest) [] Hheights)
      as (tail & -> & Hsub & _).
    simpl app. cbn [bind]. intros [= <-].
    apply Subseq_length in Hsub.
    destruct (1 <? length tail)%nat; [| exact Hsub].
    destruct (non_max_suppression_selects tail default_overlap_threshold)
      as (_ & Hlen & _).
    lia.
Qed.

End FilterMore.

(** ** Properties of the route [/predict] *)

Lemma py_split_no_sep (sep : Ascii.ascii) (s : string) :
  contains (String sep EmptyString) s = false -> py_split sep s = [s].
Proof.
  induction s as [| c rest IH]; simpl; [reflexivity |].
  intros Hno. apply orb_false_iff in Hno. destruct Hno as [Hhead Hrest].
  destruct (Ascii.eqb c sep) eqn:Hc.
  - apply Ascii.eqb_eq in Hc. subst c.
    simpl in Hhead.
    destruct (Ascii.ascii_dec sep sep); [destruct rest; discriminate | congruence].
  - rewrite (IH Hrest). reflexivity.
Qed.

Lemma py_split_app (sep : Ascii.ascii) (s t : string) :
  contains (String sep EmptyString) s = false ->
  py_split sep (s ++ String sep t) = s :: py_split sep t.
Proof.
  induction s as [| c rest IH]; simpl.
  - intros _. rewrite Ascii.eqb_refl. reflexivity.
  - intros Hno. apply orb_false_iff in Hno. destruct Hno as [Hhead Hrest].
    destruct (Ascii.eqb c sep) eqn:Hc.
    + apply Ascii.eqb_eq in Hc. subst c.
      simpl in Hhead.
      destruct (Ascii.ascii_dec sep sep); [destruct rest; discriminate | congruence].
    + rewrite (IH Hrest). reflexivity.
Qed.

Lemma py_split_nonempty (sep : Ascii.ascii) (s : string) :
  exists part parts, py_split sep s = part :: parts.
Proof.
  induction s as [| c rest (part & parts & IH)]; simpl.
  - eexists _, _. reflexivity.
  - destruct (Ascii.eqb c sep); [eexists _, _; reflexivity |].
    rewrite IH. eexists _, _. reflexivity.
Qed.

Lemma prefix_app (p s : string) : String.prefix p (p ++ s) = true.
Proof.
  induction p as [| c p IH]; simpl.
  - destruct s; reflexivity.
  - destruct (Ascii.ascii_dec c c); [exact IH | congruence].
Qed.

Lemma find_existsb {A : Type} (p : A -> bool) (l : list A) (a : A) :
  find p l = Some a -> existsb p l = true /\ l <> [].
Proof.
  intros Hfind. apply find_some in Hfind. destruct Hfind as [Hin Hp]. split.
  - apply existsb_exists. exists a. split; assumption.
  - intros ->. destruct Hin.
Qed.

Lemma string_app_assoc (s t u : string) : (s ++ t ++ u = (s ++ t) ++ u)%string.
Proof. induction s as [| c s IH]; simpl; [reflexivity | rewrite IH; reflexivity]. Qed.

(** The text after the first comma of a data URL, up to the next comma. *)
Lemma image_text_data_url (header rest : string) :
  contains "," header = false ->
  image_text (JStr ("data:image" ++ header ++ String comma rest))
  = Ok (hd EmptyString (py_split comma rest)).
Proof.
  intros Hheader. unfold image_text.
  rewrite prefix_app.
  assert (Hsplit : py_split comma ("data:image" ++ header ++ String comma rest)
                   = ("data:image" ++ header)%string :: py_split comma rest).
  { rewrite string_app_assoc. apply py_split_app. simpl. exact Hheader. }
  rewrite Hsplit. simpl.
  destruct (py_split_nonempty comma rest) as (part & parts & ->). reflexivity.
Qed.

Section RouteProperties.

Context {L : Libs} {W : WebLibs}.

(** X15.  The route decodes exactly the base64 text the client sent:
    for a text without comma, the reply to the client's payload
    "data:image/jpeg;base64," followed by the text is the reply computed
    from [decode_image] of that text. *)
Theorem client_payload_round_trip (predictor : EmotionPredictor) (image_b64 : string) :
  contains "," image_b64 = false ->
  (py_getitem (client_payload image_b64) "image" = Ok (JStr ("data:image/jpeg;base64," ++ image_b64))
   /\ image_text (JStr ("data:image/jpeg;base64," ++ image_b64)) = Ok image_b64)
  /\ predict_route_body predictor (Ok (client_payload image_b64))
     = (image_array <- decode_image image_b64 ;;
        image_array <- (if (ndim image_array =? 3)%nat
                        then cv2_cvtColor_RGB2BGR image_array else Ok image_array) ;;
        Ok (ResultBody (predict_emotion predictor image_array), 200%nat)).
Proof.
  intros Hclean.
  assert (Htext : image_text (JStr ("data:image/jpeg;base64," ++ image_b64))
                  = Ok image_b64).
  { change ("data:image/jpeg;base64," ++ image_b64)%string
      with ("data:image" ++ "/jpeg;base64" ++ String comma image_b64)%string.
    rewrite image_text_data_url by reflexivity.
    rewrite (py_split_no_sep comma image_b64 Hclean). reflexivity. }
  split; [split; [reflexivity | exact Htext] |].
  unfold predict_route_body, client_payload.
  cbn [bind truthy negb py_in py_getitem existsb find fst snd String.eqb Ascii.eqb
       Bool.eqb orb].
  rewrite Htext. reflexivity.
Qed.

(** X16.  An image text that starts with "data:image" and has no comma
    is answered with status 500: taking the part after the comma raises,
    and the route reports the exception. *)
Theorem data_url_without_comma_is_500 (predictor : EmotionPredictor)
  (fields : list (string * Json)) (s : string) :
  py_getitem (JObj fields) "image" = Ok (JStr s) ->
  String.prefix "data:image" s = true ->
  contains "," s = false ->
  exists e, predict_route (Some predictor) (Ok (JObj fields)) = (ErrorBody e, 500%nat).
Proof.
  intros Hget Hprefix Hclean.
  assert (Hfields : existsb (fun kv => String.eqb (fst kv) "image") fields = true
                    /\ fields <> []).
  { simpl in Hget.
    destruct (find (fun kv => String.eqb (fst kv) "image") fields) as [kv |] eqn:Hfind;
      [| discriminate].
    eapply find_existsb. exact Hfind. }
  destruct Hfields as [Hin Hne].
  unfold predict_route, predict_route_body. cbn [bind].
  assert (Htruthy : truthy (JObj fields) = true)
    by (destruct fields; [congruence | reflexivity]).
  rewrite Htruthy. cbn [negb py_in bind]. rewrite Hin. cbn [negb].
  rewrite Hget. cbn [bind]. unfold image_text. rewrite Hprefix.
  rewrite (py_split_no_sep comma s Hclean). simpl.
  eexists. reflexivity.
Qed.

(** X17.  Whatever the request, the route gives one of three replies:
    the results of [predict_emotion] on some frame with status 200, the
    error "No image data provided" with status 400, or an error with
    status 500; without a predictor it is always the last. *)
Theorem predict_route_replies (predictor : option EmotionPredictor)
  (get_json : result Json) :
  (exists p image,
     predictor = Some p
     /\ predict_route predictor get_json
        = (ResultBody (predict_emotion p image), 200%nat))
  \/ (predictor <> None
      /\ predict_route predictor get_json
         = (ErrorBody "No image data provided", 400%nat))
  \/ (exists e, predict_route predictor get_json = (ErrorBody e, 500%nat)).
Proof.
  destruct predictor as [p |]; [| right; right; eexists; reflexivity].
  unfold predict_route, predict_route_body.
  destruct get_json as [data | e]; cbn [bind];
    [| right; right; eexists; reflexivity].
  destruct (truthy data); cbn [negb];
    [| right; left; split; [discriminate | reflexivity]].
  destruct (py_in "image" data) as [[|] | e]; cbn [bind negb];
    [| right; left; split; [discriminate | reflexivity]
     | right; right; eexists; reflexivity].
  destruct (py_getitem data "image") as [image_data | e]; cbn [bind];
    [| right; right; eexists; reflexivity].
  destruct (image_text image_data) as [text | e]; cbn [bind];
    [| right; right; eexists; reflexivity].
  destruct (decode_image text) as [image_array | e]; cbn [bind];
    [| right; right; eexists; reflexivity].
  destruct (ndim image_array =? 3)%nat.
  - destruct (cv2_cvtColor_RGB2BGR image_array) as [converted | e]; cbn [bind];
      [| right; right; eexists; reflexivity].
    left. exists p, converted. split; reflexivity.
  - cbn [bind]. left. exists p, image_array. split; reflexivity.
Qed.

(** X18.  A request whose image is decoded to a gray frame in which no
    candidate survives is answered with status 200 and the response
    success = false, "No face detected": the absence of a face is not an
    HTTP error. *)
Theorem no_face_is_status_200 (predictor : EmotionPredictor)
  (fields : list (string * Json)) (image_data : Json) (text : string)
  (rows : list (list Z)) :
  py_getitem (JObj fields) "image" = Ok image_data ->
  image_text image_data = Ok text ->
  decode_image text = Ok (Gray rows) ->
  detect_faces_multi_scale predictor (Gray rows) = [] ->
  predict_route (Some predictor) (Ok (JObj fields))
  = (ResultBody no_face_response, 200%nat).
Proof.
  intros Hget Htext Hdecode Hnone.
  assert (Hfields : existsb (fun kv => String.eqb (fst kv) "image") fields = true
                    /\ fields <> []).
  { simpl in Hget.
    destruct (find (fun kv => String.eqb (fst kv) "image") fields) as [kv |] eqn:Hfind;
      [| discriminate].
    eapply find_existsb. exact Hfind. }
  destruct Hfields as [Hin Hne].
  unfold predict_route, predict_route_body. cbn [bind].
  assert (Htruthy : truthy (JObj fields) = true)
    by (destruct fields; [congruence | reflexivity]).
  rewrite Htruthy. cbn [negb py_in bind]. rewrite Hin. cbn [negb].
  rewrite Hget. cbn [bind]. rewrite Htext. cbn [bind]. rewrite Hdecode.
  cbn [bind ndim Nat.eqb].
  unfold predict_emotion, predict_emotion_body. rewrite Hnone. reflexivity.
Qed.

End RouteProperties.

(** ** The stub [argsort] sorts *)

Lemma insert_index_sorted (a : list Z) (i : nat) (sorted : list nat) :
  StronglySorted (fun j k => nth j a 0 <= nth k a 0) sorted ->
  StronglySorted (fun j k => nth j a 0 <= nth k a 0) (Stubs.insert_index a i sorted).
Proof.
  induction 1 as [| j rest Hrest IH Hj]; simpl.
  - repeat constructor.
  - destruct (nth i a 0 <? nth j a 0) eqn:Hlt.
    + apply Z.ltb_lt in Hlt. constructor; [constructor; assumption |].
      constructor; [lia |].
      eapply Forall_impl; [| exact Hj]. intros k Hk. simpl in Hk. lia.
    + apply Z.ltb_ge in Hlt. constructor; [exact IH |].
      apply Forall_forall. intros k Hk.
      eapply Permutation_in in Hk; [| apply insert_index_perm].
      destruct Hk as [<- | Hk]; [exact Hlt |].
      rewrite Forall_forall in Hj. apply Hj. exact Hk.
Qed.

Lemma fold_insert_index_sorted (a : list Z) (l sorted : list nat) :
  StronglySorted (fun j k => nth j a 0 <= nth k a 0) sorted ->
  StronglySorted (fun j k => nth j a 0 <= nth k a 0)
    (fold_left (fun s i => Stubs.insert_index a i s) l sorted).
Proof.
  revert sorted. induction l as [| i l IH]; intros sorted Hsorted; simpl.
  - exact Hsorted.
  - apply IH. apply insert_index_sorted. exact Hsorted.
Qed.

#[export] Instance stub_libs_sorted : LibsSorted Stubs.libs.
Proof.
  constructor. intros l. simpl. unfold Stubs.argsort.
  apply fold_insert_index_sorted. constructor.
Qed.

(** ** Further runs on concrete frames *)

#[local] Existing Instance Samples.web_libs.

Lemma detector_failure_is_no_face_witness :
  predict_emotion Samples.broken_cascade_predictor Stubs.frame = no_face_response
  /\ message (predict_emotion Samples.broken_cascade_predictor Stubs.frame)
     = "No face detected"%string.
Proof.
  apply (detector_failure_is_no_face Samples.broken_cascade_predictor Stubs.frame).
  left. exists "cascade failure"%string. reflexivity.
Defined.

Lemma unlabelled_classes_fail_request_witness :
  success (predict_emotion
             (Stubs.predictor [Stubs.inside_face] (Ok Samples.four_scores)) Stubs.frame)
  = false
  /\ faces_detected (predict_emotion
                       (Stubs.predictor [Stubs.inside_face] (Ok Samples.four_scores))
                       Stubs.frame) = 0%nat
  /\ emotions (predict_emotion
                 (Stubs.predictor [Stubs.inside_face] (Ok Samples.four_scores))
                 Stubs.frame) = [].
Proof.
  apply (unlabelled_classes_fail_request
           (Stubs.predictor [Stubs.inside_face] (Ok Samples.four_scores)) Stubs.frame).
  - intros t prediction [= <-]. right. simpl. lia.
  - exists Stubs.inside_face. split; [left; reflexivity |].
    vm_compute. discriminate.
Defined.

Lemma normalize_unit_range_witness :
  map (@length _) (normalize (Gray [[0; 128; 255]])) = [3%nat]
  /\ Forall (Forall (fun pixel => length pixel = 1%nat)) (normalize (Gray [[0; 128; 255]]))
  /\ Forall (Forall (Forall (fun q => (0 <= q <= 1)%Q)))
            (normalize (Gray [[0; 128; 255]])).
Proof.
  apply (normalize_unit_range [[0; 128; 255]]).
  repeat constructor; lia.
Defined.

Lemma non_max_suppression_selects_witness :
  (exists suppressed,
     Permutation Stubs.overlapping_faces
       (non_max_suppression Stubs.overlapping_faces (3 # 10) ++ suppressed))
  /\ (length (non_max_suppression Stubs.overlapping_faces (3 # 10))
      <= length Stubs.overlapping_faces)%nat
  /\ (Stubs.overlapping_faces <> [] ->
      non_max_suppression Stubs.overlapping_faces (3 # 10) <> []).
Proof.
  exact (non_max_suppression_selects (LS := stub_libs_spec)
           Stubs.overlapping_faces (3 # 10)).
Defined.

Lemma non_max_suppression_f64_complete_witness :
  In (0, 0, 40, 40) (non_max_suppression_f64 Stubs.overlapping_faces f64_0_3)
  \/ exists kept,
       In kept (non_max_suppression_f64 Stubs.overlapping_faces f64_0_3)
       /\ f64_le (overlap_ratio_f64 kept (0, 0, 40, 40)) f64_0_3 = false.
Proof.
  apply (non_max_suppression_f64_complete (LS := stub_libs_spec)
           Stubs.overlapping_faces f64_0_3 (0, 0, 40, 40)).
  - exact overlapping_faces_int64.
  - left. reflexivity.
Defined.

Lemma non_max_suppression_f64_largest_first_witness :
  StronglySorted (fun a b => rect_area b <= rect_area a)
    (non_max_suppression_f64 Stubs.overlapping_faces f64_0_3)
  /\ (Stubs.overlapping_faces <> [] ->
      exists first rest,
        non_max_suppression_f64 Stubs.overlapping_faces f64_0_3 = first :: rest
        /\ Forall (fun f => rect_area f <= rect_area first) Stubs.overlapping_faces).
Proof.
  apply (non_max_suppression_f64_largest_first (LS := stub_libs_spec)
           (LO := stub_libs_sorted) Stubs.overlapping_faces f64_0_3).
  - exact overlapping_faces_int64.
  - change (2 ^ 63) with 9223372036854775808.
    repeat constructor; vm_compute; discriminate.
Defined.

Lemma filter_output_plausible_witness :
  Forall (fun f =>
            let '(x, y, w, h) := f in
            inside_frame Stubs.textured_frame f
            /\ 0 < w /\ 0 < h
            /\ fst (FACE_DETECTION_MIN_SIZE (config Stubs.small_predictor)) <= w
            /\ fst (FACE_DETECTION_MIN_SIZE (config Stubs.small_predictor)) <= h
            /\ (6 # 10 <= inject_Z w / inject_Z h <= 14 # 10)%Q)
         [Stubs.small_face].
Proof.
  apply (filter_output_plausible (LS := stub_libs_spec) Stubs.small_predictor
           [Stubs.wide_face; Stubs.small_face] [Stubs.small_face] Stubs.textured_frame).
  - reflexivity.
  - reflexivity.
  - reflexivity.
  - vm_compute. reflexivity.
Defined.


Lemma filter_false_positives_selects_witness :
  (forall f,
     In f (filter_false_positives Stubs.small_predictor Samples.striped_faces
             Samples.striped_frame) ->
     In f Samples.striped_faces)
  /\ (length (filter_false_positives Stubs.small_predictor Samples.striped_faces
                Samples.striped_frame)
      <= length Samples.striped_faces)%nat.
Proof.
  exact (filter_false_positives_selects (LS := stub_libs_spec) Stubs.small_predictor
           Samples.striped_faces Samples.striped_frame).
Defined.

Lemma client_payload_round_trip_witness :
  image_text (JStr "data:image/jpeg;base64,AAAA") = Ok "AAAA"%string
  /\ predict_route (Some (Stubs.predictor [Stubs.inside_face] (Ok Stubs.scores)))
       (Ok (client_payload "AAAA"))
     = (ResultBody (predict_emotion
                      (Stubs.predictor [Stubs.inside_face] (Ok Stubs.scores))
                      Stubs.frame),
        200%nat).
Proof.
  destruct (client_payload_round_trip
              (Stubs.predictor [Stubs.inside_face] (Ok Stubs.scores)) "AAAA"
              eq_refl) as [[_ Htext] Hbody].
  split; [exact Htext |].
  unfold predict_route. rewrite Hbody. reflexivity.
Defined.

Lemma data_url_without_comma_is_500_witness :
  exists e,
    predict_route (Some (Stubs.predictor [Stubs.inside_face] (Ok Stubs.scores)))
      (Ok (JObj [("image"%string, JStr "data:image/png;base64")]))
    = (ErrorBody e, 500%nat).
Proof.
  apply (data_url_without_comma_is_500
           (Stubs.predictor [Stubs.inside_face] (Ok Stubs.scores))
           [("image"%string, JStr "data:image/png;base64")] "data:image/png;base64");
    reflexivity.
Defined.

Lemma no_face_is_status_200_witness :
  predict_route (Some (Stubs.predictor [] (Ok Stubs.scores)))
    (Ok (JObj [("image"%string, JStr "AAAA")]))
  = (ResultBody no_face_response, 200%nat).
Proof.
  apply (no_face_is_status_200 (Stubs.predictor [] (Ok Stubs.scores))
           [("image"%string, JStr "AAAA")] (JStr "AAAA") "AAAA"
           (repeat (repeat 128 60) 60));
    reflexivity.
Defined.

(** ** Overlap ratios of proper rectangles, and what the stages keep *)

Lemma clipped_extent_bounds (a1 al b1 bl : Z) :
  0 < al -> 0 < bl ->
  0 <= Z.max 0 (Z.min (a1 + al) (b1 + bl) - Z.max a1 b1) <= al
  /\ Z.max 0 (Z.min (a1 + al) (b1 + bl) - Z.max a1 b1) <= bl.
Proof. lia. Qed.


(** X19.  For two rectangles of positive width and height, non-negative
    corner, and right and bottom edges below 2^31, the intersection and
    the union that [non_max_suppression] computes in 64-bit integers are
    the exact ones, the union is positive and the exact quotient of the
    two lies between 0 and 1; for such a rectangle against itself the
    intersection equals the union. *)
Theorem overlap_counts_int64_unit_range (a b : Rect) :
  int64_safe a -> int64_safe b ->
  0 < rect_w a -> 0 < rect_h a -> 0 < rect_w b -> 0 < rect_h b ->
  overlap_counts_int64 a b = overlap_counts a b
  /\ 0 <= fst (overlap_counts_int64 a b) <= snd (overlap_counts_int64 a b)
  /\ 0 < snd (overlap_counts_int64 a b)
  /\ (0 <= inject_Z (fst (overlap_counts_int64 a b))
            / inject_Z (snd (overlap_counts_int64 a b)) <= 1)%Q
  /\ fst (overlap_counts_int64 a a) = snd (overlap_counts_int64 a a).
Proof.
  intros Hsafe_a Hsafe_b Haw Hah Hbw Hbh.
  rewrite (overlap_counts_int64_exact a b Hsafe_a Hsafe_b).
  rewrite (overlap_counts_int64_exact a a Hsafe_a Hsafe_a).
  split; [reflexivity |].
  destruct a as [[[ax ay] aw] ah], b as [[[bx by_] bw] bh]. simpl in *.
  destruct (clipped_extent_bounds ax aw bx bw Haw Hbw) as [[Hw0 Hwa] Hwb].
  destruct (clipped_extent_bounds ay ah by_ bh Hah Hbh) as [[Hh0 Hha] Hhb].
  set (w := Z.max 0 (Z.min (ax + aw) (bx + bw) - Z.max ax bx)) in *.
  set (h := Z.max 0 (Z.min (ay + ah) (by_ + bh) - Z.max ay by_)) in *.
  assert (Hinter : 0 <= w * h) by (apply Z.mul_nonneg_nonneg; assumption).
  assert (Hia : w * h <= aw * ah) by (apply Z.mul_le_mono_nonneg; assumption).
  assert (Hib : w * h <= bw * bh) by (apply Z.mul_le_mono_nonneg; assumption).
  assert (Ha : 0 < aw * ah) by (apply Z.mul_pos_pos; assumption).
  assert (Hunion : 0 < aw * ah + bw * bh - w * h) by lia.
  assert (HunionQ : (0 < inject_Z (aw * ah + bw * bh - w * h))%Q)
    by (rewrite <- (Zlt_Qlt 0); exact Hunion).
  split; [lia |]. split; [lia |]. split; [| lia].
  split.
  - apply Qle_shift_div_l; [exact HunionQ |].
    rewrite Qmult_0_l. rewrite <- (Zle_Qle 0). exact Hinter.
  - apply Qle_shift_div_r; [exact HunionQ |].
    rewrite Qmult_1_l. rewrite <- Zle_Qle. lia.
Qed.


Section Duplicates.

Context {L : Libs} {LS : LibsSpec L}.


End Duplicates.

Section DetectionComplete.

Context {L : Libs}.

Lemma is_duplicate_true (x y w h : Z) (filtered_faces : list Rect) :
  is_duplicate x y w h filtered_faces = true ->
  exists kept, In kept filtered_faces /\ near kept (x, y, w, h) = true.
Proof.
  unfold is_duplicate. intros Hdup. apply existsb_exists in Hdup.
  destruct Hdup as ([[[fx fy] fw] fh] & Hin & Hnear).
  exists (fx, fy, fw, fh). split; [exact Hin | exact Hnear].
Qed.

Lemma size_and_duplicate_loop_keeps (faces filtered_faces : list Rect) (f : Rect) :
  In f filtered_faces -> In f (size_and_duplicate_loop faces filtered_faces).
Proof.
  intros Hin.
  destruct (size_and_duplicate_loop_spec faces filtered_faces) as (tail & -> & _).
  apply in_or_app. left. exact Hin.
Qed.

Lemma size_and_duplicate_loop_complete (faces filtered_faces : list Rect) (f : Rect) :
  In f faces ->
  in_size_range f ->
  In f (size_and_duplicate_loop faces filtered_faces)
  \/ exists kept, In kept (size_and_duplicate_loop faces filtered_faces)
                  /\ near kept f = true.
Proof.
  revert filtered_faces.
  induction faces as [| [[[x y] w] h] rest IH]; intros acc Hin Hsize;
    [destruct Hin |].
  simpl. destruct Hin as [<- | Hin].
  - unfold in_size_range in Hsize. simpl in Hsize.
    apply size_gate_spec in Hsize. rewrite Hsize.
    destruct (is_duplicate x y w h acc) eqn:Hdup; simpl.
    + right. destruct (is_duplicate_true _ _ _ _ _ Hdup) as (kept & Hkept & Hnear).
      exists kept. split; [| exact Hnear].
      apply size_and_duplicate_loop_keeps. exact Hkept.
    + left. apply size_and_duplicate_loop_keeps.
      apply in_or_app. right. left. reflexivity.
  - destruct ((30 <=? w) && (w <=? 300) && (30 <=? h) && (h <=? 300)); [| auto].
    destruct (negb (is_duplicate x y w h acc)); auto.
Qed.

(** X21.  [detect_faces_multi_scale] drops a raw candidate only for its
    size, for being near a candidate it keeps, or for the cap: when at
    most 3 candidates pass, every raw candidate inside the size gate
    30..300 is returned or is near a returned candidate. *)
Theorem detect_drops_only_near (self : EmotionPredictor) (image : Image)
  (faces : list Rect) (f : Rect) :
  face_cascade_detectMultiScale self (reduce_background_noise self image) = Ok faces ->
  (length (size_and_duplicate_loop faces []) <= 3)%nat ->
  In f faces ->
  in_size_range f ->
  In f (detect_faces_multi_scale self image)
  \/ exists kept, In kept (detect_faces_multi_scale self image) /\ near kept f = true.
Proof.
  intros Hgen Hcap Hin Hsize.
  destruct (detect_faces_cap self image) as [_ Hfirst].
  destruct (Hfirst faces Hgen) as [-> _].
  rewrite firstn_all2 by exact Hcap.
  apply size_and_duplicate_loop_complete; assumption.
Qed.

End DetectionComplete.


Lemma overlap_counts_int64_unit_range_witness :
  overlap_counts_int64 (2, 2, 44, 44) (35, 35, 40, 40) = (121, 3415)
  /\ 0 <= fst (overlap_counts_int64 (2, 2, 44, 44) (35, 35, 40, 40))
       <= snd (overlap_counts_int64 (2, 2, 44, 44) (35, 35, 40, 40))
  /\ 0 < snd (overlap_counts_int64 (2, 2, 44, 44) (35, 35, 40, 40))
  /\ (0 <= inject_Z (fst (overlap_counts_int64 (2, 2, 44, 44)%Z (35, 35, 40, 40)%Z))
            / inject_Z (snd (overlap_counts_int64 (2, 2, 44, 44)%Z (35, 35, 40, 40)%Z))
         <= 1)%Q
  /\ fst (overlap_counts_int64 (2, 2, 44, 44) (2, 2, 44, 44))
     = snd (overlap_counts_int64 (2, 2, 44, 44) (2, 2, 44, 44)).
Proof.
  destruct (overlap_counts_int64_unit_range (2, 2, 44, 44) (35, 35, 40, 40)
              int64_safe_sample_first int64_safe_sample_second
              eq_refl eq_refl eq_refl eq_refl) as (Hexact & Hbounds).
  split; [rewrite Hexact; reflexivity | exact Hbounds].
Defined.

Lemma detect_drops_only_near_witness :
  In (5, 5, 40, 40)
     (detect_faces_multi_scale
        (Stubs.predictor Samples.crowded_faces (Ok Stubs.scores)) Stubs.frame)
  \/ exists kept,
       In kept (detect_faces_multi_scale
                  (Stubs.predictor Samples.crowded_faces (Ok Stubs.scores)) Stubs.frame)
       /\ near kept (5, 5, 40, 40) = true.
Proof.
  apply (detect_drops_only_near
           (Stubs.predictor Samples.crowded_faces (Ok Stubs.scores)) Stubs.frame
           Samples.crowded_faces (5, 5, 40, 40)).
  - reflexivity.
  - vm_compute. lia.
  - right. left. reflexivity.
  - unfold in_size_range. simpl. lia.
Defined.
